(** * choir2anki: notation segmentation and lyric alignment

    A shallow embedding of the computational core of [choir2anki.py]:
    [create_normal_lyrics], [create_lyric_slice], [count_singable_notes],
    [create_normal_note_shards] and the lyric bookkeeping of [main].

    Python [str] values are [string]s whose characters are read as code
    points below 256; Python [int]s are [Z]; the result of [len] and list
    slicing bounds derived from it are [nat].  A call either returns a
    value or raises; the [while] loop of the shard splitter may also fail
    to terminate, which the embedding renders with fuel. *)

From Stdlib Require Import String Ascii List ZArith Lia Bool Arith.
Import ListNotations.

Open Scope string_scope.
Open Scope list_scope.

(** ** Outcomes of a Python call *)

Inductive exn : Type :=
| IndexError                      (* list index out of range *)
| ValueError                      (* empty separator given to str.split *)
| ExternalError (msg : string).   (* raised inside the abjad parser *)

Inductive outcome (A : Type) : Type :=
| Return (a : A)
| Raise (e : exn)
| OutOfFuel.

Arguments Return {A} a.
Arguments Raise {A} e.
Arguments OutOfFuel {A}.

Definition bind {A B : Type} (m : outcome A) (k : A -> outcome B) : outcome B :=
  match m with
  | Return a => k a
  | Raise e => Raise e
  | OutOfFuel => OutOfFuel
  end.

Notation "x <- m ;; k" := (bind m (fun x => k))
  (at level 61, m at next level, right associativity).
Notation "' pat <- m ;; k" := (bind m (fun x => match x with pat => k end))
  (at level 61, pat pattern, m at next level, right associativity).

(** A [for] loop whose body may raise: the state is threaded left to right
    and the first exception aborts the loop. *)
Fixpoint for_each {S A : Type} (body : S -> A -> outcome S) (xs : list A) (st : S)
  : outcome S :=
  match xs with
  | [] => Return st
  | x :: xs' => st' <- body st x ;; for_each body xs' st'
  end.

(** A list comprehension whose element expression may raise. *)
Fixpoint comprehension {A B : Type} (f : A -> outcome B) (xs : list A)
  : outcome (list B) :=
  match xs with
  | [] => Return []
  | x :: xs' => y <- f x ;; ys <- comprehension f xs' ;; Return (y :: ys)
  end.

Definition raises {A : Type} (o : outcome A) : Prop := exists e, o = Raise e.

(** ** The Python string and list primitives the program uses *)

Module Py.

(** [str.isspace] on one character, for code points below 256. *)
Definition isspace (c : ascii) : bool :=
  let n := nat_of_ascii c in
  (((9 <=? n) && (n <=? 13)) || ((28 <=? n) && (n <=? 32))
   || (n =? 133) || (n =? 160))%nat.

Definition snoc (s : string) (c : ascii) : string := s ++ String c "".

(** [s.split()]: the maximal runs of non-whitespace characters of [s],
    scanned left to right; [cur] is the run being read. *)
Fixpoint split_from (cur : string) (s : string) : list string :=
  match s with
  | "" => if cur =? "" then [] else [cur]
  | String c s' =>
      if isspace c
      then (if cur =? "" then split_from "" s' else cur :: split_from "" s')
      else split_from (snoc cur c) s'
  end.

Definition split (s : string) : list string := split_from "" s.

(** [sep.join(l)]. *)
Fixpoint join (sep : string) (l : list string) : string :=
  match l with
  | [] => ""
  | x :: tl => match tl with [] => x | _ :: _ => x ++ sep ++ join sep tl end
  end.

(** [t.startswith(p)] and [t.endswith(p)]. *)
Fixpoint startswith (t p : string) {struct p} : bool :=
  match p with
  | "" => true
  | String a p' =>
      match t with
      | "" => false
      | String b t' => Ascii.eqb a b && startswith t' p'
      end
  end.

Fixpoint endswith (t p : string) : bool :=
  (t =? p) ||
  match t with
  | "" => false
  | String _ t' => endswith t' p
  end.

(** [s.split(sep)] for a separator [sep]: cut at every occurrence of
    [sep], found left to right and not overlapping; [skip] counts the
    characters of the occurrence still to pass over.  Python raises
    ValueError for the empty separator. *)
Fixpoint split_sep_from (sep : string) (skip : nat) (cur : string) (s : string)
  : list string :=
  match s with
  | "" => [cur]
  | String c s' =>
      match skip with
      | S k => split_sep_from sep k cur s'
      | O =>
          if startswith s sep
          then cur :: split_sep_from sep (String.length sep - 1) "" s'
          else split_sep_from sep 0 (snoc cur c) s'
      end
  end.

Definition split_sep (s sep : string) : outcome (list string) :=
  if sep =? "" then Raise ValueError else Return (split_sep_from sep 0 "" s).

(** [s.strip()]. *)
Fixpoint lstrip (s : string) : string :=
  match s with
  | "" => ""
  | String c s' => if isspace c then lstrip s' else s
  end.

Fixpoint rstrip (s : string) : string :=
  match s with
  | "" => ""
  | String c s' =>
      let r := rstrip s' in
      if isspace c && (r =? "") then "" else String c r
  end.

Definition strip (s : string) : string := rstrip (lstrip s).

(** [l[1:-1]]. *)
Definition slice_1_m1 {A : Type} (l : list A) : list A := removelast (tl l).

(** [l[-1]], together with the elements before it. *)
Definition unsnoc {A : Type} (l : list A) : option (list A * A) :=
  match rev l with
  | [] => None
  | x :: r => Some (rev r, x)
  end.

(** [re.match('^[a-g]', t)] as a truth value. *)
Definition match_a_to_g (t : string) : bool :=
  match t with
  | "" => false
  | String c _ => let n := nat_of_ascii c in ((97 <=? n) && (n <=? 103))%nat
  end.

End Py.

(** ** create_normal_lyrics *)

(** One iteration of the loop over [tokens]; the state is
    [(words, join_next)].  [words[-1] += t] raises IndexError when
    [words] is empty. *)
Definition normal_lyrics_step (st : list string * bool) (t : string)
  : outcome (list string * bool) :=
  let '(words, join_next) := st in
  if t =? "__" then Return (words, join_next)
  else if t =? "--" then Return (words, true)
  else if join_next then
    match Py.unsnoc words with
    | None => Raise IndexError
    | Some (init, last) => Return (init ++ [(last ++ t)%string], false)
    end
  else Return (words ++ [t], false).

Definition normal_words (tokens : list string) : outcome (list string) :=
  '(words, _) <- for_each normal_lyrics_step tokens ([], false) ;;
  Return words.

Definition create_normal_lyrics (lilypond_lyrics : string) : outcome string :=
  let tokens := Py.split lilypond_lyrics in
  words <- normal_words tokens ;;
  Return (Py.join " " words).

(** ** create_lyric_slice *)

Open Scope Z_scope.

(** One iteration; the state is [(lyric_slice, syllable_counter)]. *)
Definition lyric_slice_step (slice_start slice_end : Z)
  (st : list string * Z) (t : string) : list string * Z :=
  let '(lyric_slice, syllable_counter) := st in
  let lyric_slice :=
    if (slice_start <=? syllable_counter) && (syllable_counter <? slice_end)
    then lyric_slice ++ [t] else lyric_slice in
  let syllable_counter :=
    if negb (t =? "--")%string then syllable_counter + 1 else syllable_counter in
  (lyric_slice, syllable_counter).

Definition lyric_slice_tokens (tokens : list string) (slice_start slice_end : Z)
  : list string :=
  fst (fold_left (lyric_slice_step slice_start slice_end) tokens ([], 0)).

Definition create_lyric_slice (lilypond_lyrics : string) (slice_start slice_end : Z)
  : string :=
  let tokens := Py.split lilypond_lyrics in
  Py.join " " (lyric_slice_tokens tokens slice_start slice_end).

(** ** count_singable_notes *)

(** One iteration; the state is
    [(singable_notes, open_parantheses, next_is_tie)]. *)
Definition count_step (st : Z * Z * bool) (t : string) : Z * Z * bool :=
  let '(singable_notes, open_parantheses, next_is_tie) := st in
  let closes := Py.endswith t ")" in
  let open_parantheses := if closes then open_parantheses - 1 else open_parantheses in
  let singable_notes :=
    if closes && (open_parantheses =? 0) then singable_notes + 1 else singable_notes in
  if next_is_tie then
    (singable_notes, open_parantheses, Py.endswith t "~")
  else
    let next_is_tie := Py.endswith t "~" in
    let singable_notes :=
      if (open_parantheses =? 0) && Py.match_a_to_g t
      then singable_notes + 1 else singable_notes in
    let open_parantheses :=
      if Py.endswith t "(" then open_parantheses + 1 else open_parantheses in
    (singable_notes, open_parantheses, next_is_tie).

Definition count_loop (tokens : list string) (open_parantheses : Z) : Z * Z * bool :=
  fold_left count_step tokens (0, open_parantheses, false).

Definition count_singable_notes (lilypond_notes : string) (open_parantheses : Z) : Z :=
  let tokens := Py.split lilypond_notes in
  fst (fst (count_loop tokens open_parantheses)).

(** ** create_normal_note_shards *)

Close Scope Z_scope.

(** [sum([x.startswith('%%%') for x in shard])]. *)
Definition num_comments (shard : list string) : nat :=
  list_sum (map (fun x => Nat.b2n (Py.startswith x "%%%")) shard).

(** The [while] loop that compensates for comment lines (lines 285-289).
    Each unit of fuel pays for one iteration. *)
Fixpoint compensate (fuel : nat) (shard normalized_notes : list string)
  (num_comments_found num_comments_compensated : nat)
  : outcome (list string * list string) :=
  if Nat.eqb num_comments_found num_comments_compensated
  then Return (shard, normalized_notes)
  else
    match fuel with
    | O => OutOfFuel
    | S fuel' =>
        let shard_addition := firstn num_comments_found normalized_notes in
        let normalized_notes := skipn num_comments_found normalized_notes in
        let shard := shard ++ shard_addition in
        compensate fuel' shard normalized_notes (num_comments shard)
          (num_comments_compensated + length shard_addition)
    end.

(** The lines one pass of the [for] loop gathers for a shard of nominal
    length [l], and the lines left over. *)
Definition take_shard (fuel : nat) (normalized_notes : list string) (l : nat)
  : outcome (list string * list string) :=
  let shard := firstn l normalized_notes in
  let normalized_notes := skipn l normalized_notes in
  compensate fuel shard normalized_notes (num_comments shard) 0.

(** One pass of the [for] loop over [shard_lengths]; the state is
    [(note_shards, normalized_notes)]. *)
Definition note_shards_step (fuel : nat) (st : list string * list string) (l : nat)
  : outcome (list string * list string) :=
  let '(note_shards, normalized_notes) := st in
  '(shard, normalized_notes) <- take_shard fuel normalized_notes l ;;
  Return (note_shards ++ [Py.join " " shard], normalized_notes).

(** Lines 279-291: from the normalized lines and the shard lengths to the
    shard strings, paired with the lines the loop never consumed (which
    the function drops on return). *)
Definition note_shards_loop (fuel : nat) (normalized_notes : list string)
  (shard_lengths : list nat) : outcome (list string * list string) :=
  for_each (note_shards_step fuel) shard_lengths ([], normalized_notes).

(** The same loop keeping every shard as its list of lines, before
    [" ".join]; used to state which lines went where. *)
Definition shard_lines_step (fuel : nat) (st : list (list string) * list string)
  (l : nat) : outcome (list (list string) * list string) :=
  let '(shards, normalized_notes) := st in
  '(shard, normalized_notes) <- take_shard fuel normalized_notes l ;;
  Return (shards ++ [shard], normalized_notes).

Definition shard_lines_loop (fuel : nat) (normalized_notes : list string)
  (shard_lengths : list nat) : outcome (list (list string) * list string) :=
  for_each (shard_lines_step fuel) shard_lengths ([], normalized_notes).

Definition newline : string := String (ascii_of_nat 10) "".

Section ShardSplitter.

(** The abjad library is not part of the repository: its parser, its
    formatter and [len] on a parsed container are taken as given.  The
    parser may raise on notation it cannot read. *)
Variable Container : Type.
Variable parser : string -> outcome Container.
Variable format_lilypond_value : Container -> string.
Variable len : Container -> nat.

Definition relative_block (relative notes : string) : string :=
  ("\relative " ++ relative ++ " { " ++ notes ++ " }")%string.

(** [len(parser(r"\relative " + relative + r" { " + n + r" }"))]. *)
Definition segment_length (relative n : string) : outcome nat :=
  c <- parser (relative_block relative n) ;; Return (len c).

Definition create_normal_note_shards (fuel : nat)
  (lilypond_notes relative split_symbol : string) : outcome (list string) :=
  abjad_notes <- parser (relative_block relative lilypond_notes) ;;
  let normalized_notes := format_lilypond_value abjad_notes in
  normalized_notes <- Py.split_sep normalized_notes newline ;;
  let normalized_notes := Py.slice_1_m1 (map Py.strip normalized_notes) in
  notes <- Py.split_sep lilypond_notes split_symbol ;;
  shard_lengths <- comprehension (segment_length relative) notes ;;
  '(note_shards, _) <- note_shards_loop fuel normalized_notes shard_lengths ;;
  Return note_shards.

End ShardSplitter.

Arguments relative_block relative notes : simpl never.
Arguments segment_length {Container} parser len relative n.
Arguments create_normal_note_shards {Container} parser format_lilypond_value len
  fuel lilypond_notes relative split_symbol.

(** ** The lyric bookkeeping of main *)

Open Scope Z_scope.

Definition partials : list Z :=
  [4; 1; 4; 1; 1; 1; 1; 1; 1; 1; 1; 1; 1; 1; 1; 1; 1; 1; 1; 1; 1; 1; 1; 1; 1;
   1; 1; 1; 1; 1].

(** One pass of the loop over the shards (lines 312-352), keeping the
    variables that carry lyrics: the note fields [qustn_lyrics] and
    [answr_lyrics] of each card, the cached [qustn_lyrics] and
    [num_seen_singable_notes].  The rendering and packaging calls in
    between are left out. *)
Definition main_step (lyrics : string)
  (st : list (string * string) * string * Z) (cur : nat * string)
  : outcome (list (string * string) * string * Z) :=
  let '(cards, qustn_lyrics, num_seen_singable_notes) := st in
  let '(shard_num, cur_notes) := cur in
  match nth_error partials shard_num with
  | None => Raise IndexError
  | Some _ =>
      let num_lyric_relevant_notes := count_singable_notes cur_notes 0 in
      let answr_lyrics :=
        create_lyric_slice lyrics num_seen_singable_notes
          (num_seen_singable_notes + num_lyric_relevant_notes + 1) in
      let num_seen_singable_notes :=
        num_seen_singable_notes + num_lyric_relevant_notes in
      q <- create_normal_lyrics qustn_lyrics ;;
      a <- create_normal_lyrics answr_lyrics ;;
      Return (cards ++ [(q, a)], answr_lyrics, num_seen_singable_notes)
  end.

Definition main_lyrics (lyrics : string) (note_shards : list string)
  : outcome (list (string * string)) :=
  '(cards, _, _) <-
    for_each (main_step lyrics)
      (combine (seq 0 (length note_shards)) note_shards) ([], "", 0) ;;
  Return cards.

(** ** Vocabulary of the statements *)

(** A token with none of the suffixes the counter reacts to. *)
Definition plain_token (t : string) : bool :=
  negb (Py.endswith t "~") && negb (Py.endswith t "(") && negb (Py.endswith t ")").


(** A lyric token that is neither the join marker nor the melisma
    marker. *)
Definition ordinary (t : string) : bool :=
  negb (t =? "__")%string && negb (t =? "--")%string.

(** The number of tokens of a lyric line that advance the syllable
    counter of [create_lyric_slice]: all but the join markers. *)
Definition syllables (tokens : list string) : Z :=
  Z.of_nat (length (filter (fun t => negb (t =? "--")%string) tokens)).

(** The tokens of a line whose counter value lies in [lo, hi), the
    counter standing at [pos] before the first of them. *)
Fixpoint window (lo hi pos : Z) (tokens : list string) : list string :=
  match tokens with
  | [] => []
  | t :: ts =>
      let rest := window lo hi (if negb (t =? "--")%string then pos + 1 else pos) ts in
      if (lo <=? pos) && (pos <? hi) then t :: rest else rest
  end.

(** The line from its first token at counter value [lo] or more. *)
Fixpoint from_position (lo pos : Z) (tokens : list string) : list string :=
  match tokens with
  | [] => []
  | t :: ts =>
      if lo <=? pos then tokens
      else from_position lo (if negb (t =? "--")%string then pos + 1 else pos) ts
  end.

(** The tokens of a group written one after the other, as one word. *)
Definition glue (group : list string) : string :=
  fold_right String.append "" group.

(** Whether a join marker comes before the first ordinary token of the
    line and an ordinary token follows it. *)
Fixpoint join_before_word (tokens : list string) : bool :=
  match tokens with
  | [] => false
  | t :: ts =>
      if (t =? "__")%string then join_before_word ts
      else if (t =? "--")%string then existsb ordinary ts
      else false
  end.

(** Lines 271-272: the lines of the formatted notation, stripped, without
    the first and the last. *)
Definition normalized_lines (formatted : string) : list string :=
  Py.slice_1_m1 (map Py.strip (Py.split_sep_from newline 0 "" formatted)).

(** The whitespace-separated tokens of a sequence of strings. *)
Definition words_of (strings : list string) : list string :=
  flat_map Py.split strings.

(** Consecutive blocks of the given lengths, cut from the front of a
    list; a block is short or empty where the list runs out. *)
Fixpoint chunks {A : Type} (lengths : list nat) (l : list A) : list (list A) :=
  match lengths with
  | [] => []
  | n :: lengths' => firstn n l :: chunks lengths' (skipn n l)
  end.

(** ** The tags of main *)

Module PyStr.

(** [c.lower()] for one character with a code point below 256: the
    letters A-Z and the capital letters of the upper half (all of
    U+00C0..U+00DE but the multiplication sign) move up by 32. *)
Definition lower_char (c : ascii) : ascii :=
  let n := nat_of_ascii c in
  if (((65 <=? n) && (n <=? 90))
      || ((192 <=? n) && (n <=? 222) && negb (n =? 215)))%nat
  then ascii_of_nat (n + 32) else c.

Fixpoint map_chars (f : ascii -> ascii) (s : string) : string :=
  match s with
  | "" => ""
  | String c s' => String (f c) (map_chars f s')
  end.

(** [s.lower()]. *)
Definition lower (s : string) : string := map_chars lower_char s.

(** [s.replace(old, new)] for one-character [old] and [new]. *)
Definition replace_char (old new : ascii) (s : string) : string :=
  map_chars (fun c => if Ascii.eqb c old then new else c) s.

End PyStr.

(** Lines 297-298. *)
Definition main_tags (songtitle voice : string) : list string :=
  let tags := [songtitle; voice; "physikerchor"] in
  map (fun x => PyStr.replace_char " " "_" (PyStr.lower x)) tags.

(** ** Further vocabulary *)

Fixpoint all_chars (p : ascii -> bool) (s : string) : bool :=
  match s with
  | "" => true
  | String c s' => p c && all_chars p s'
  end.

(** What [str.split()] produces: a non-empty string without
    whitespace. *)
Definition is_word (t : string) : bool :=
  negb (t =? "")%string && all_chars (fun c => negb (Py.isspace c)) t.

Definition newline_free (s : string) : bool :=
  all_chars (fun c => negb (Ascii.eqb (ascii_of_nat 10) c)) s.

(** A character a tag is left without: the space and the letters A-Z. *)
Definition space_or_capital (c : ascii) : bool :=
  let n := nat_of_ascii c in ((n =? 32) || ((65 <=? n) && (n <=? 90)))%nat.

(** [s[n:]] on a string. *)
Fixpoint drop (n : nat) (s : string) : string :=
  match n, s with
  | O, _ => s
  | S _, "" => ""
  | S k, String _ s' => drop k s'
  end.

(** A stand-in for abjad, to run the splitter on examples: every token
    between the braces of the block, the split symbol "%%" apart, is one
    leaf, and the formatter prints the leaves one per line, indented,
    between braces. *)
Definition leaf_parser (block : string) : outcome (list string) :=
  Return (filter (fun t => negb (t =? "%%")%string)
            (removelast (skipn 3 (Py.split block)))).

Definition leaf_format (leaves : list string) : string :=
  Py.join newline ("{" :: map (fun x => ("    " ++ x)%string) leaves ++ ["}"]).

(** The two characters the lyric markers are made of. *)
Definition marker_char (c : ascii) : bool :=
  Ascii.eqb c "-" || Ascii.eqb c "_".

(** A string without hyphen and underscore. *)
Definition marker_free (s : string) : bool :=
  all_chars (fun c => negb (marker_char c)) s.








(** * Properties *)

(** ** Strings *)

Section StringFacts.

Lemma endswith_nil (p : string) : Py.endswith "" p = (p =? "")%string.
Proof.
  destruct p; reflexivity.
Qed.

Lemma endswith_cons (c : ascii) (t p : string) :
  Py.endswith (String c t) p = ((String c t =? p)%string || Py.endswith t p).
Proof. reflexivity. Qed.

(** A token has one last character: two one-character suffixes of the
    same token are the same character. *)
Lemma endswith_char_unique (t : string) (a b : ascii) :
  Py.endswith t (String a "") = true ->
  Py.endswith t (String b "") = true ->
  a = b.
Proof.
  induction t as [|c t IH].
  - discriminate.
  - rewrite !endswith_cons. destruct t as [|c' t'].
    + rewrite !endswith_nil, !orb_false_r. intros Ha Hb.
      apply String.eqb_eq in Ha, Hb. congruence.
    + assert (E : forall x, (String c (String c' t') =? String x "")%string = false).
      { intro x. apply String.eqb_neq. discriminate. }
      rewrite !E. exact IH.
Qed.

Lemma endswith_other (t : string) (a b : ascii) :
  a <> b ->
  Py.endswith t (String a "") = true ->
  Py.endswith t (String b "") = false.
Proof.
  intros Hab Ha.
  destruct (Py.endswith t (String b "")) eqn:Hb; [|reflexivity].
  elim Hab. eapply endswith_char_unique; eassumption.
Qed.

End StringFacts.

(** ** The singable-note counter *)

Lemma plain_token_inv (t : string) :
  plain_token t = true ->
  Py.endswith t "~" = false /\ Py.endswith t "(" = false /\ Py.endswith t ")" = false.
Proof.
  unfold plain_token. rewrite !andb_true_iff, !negb_true_iff. tauto.
Qed.

Ltac flags H :=
  apply plain_token_inv in H; destruct H as (?F1 & ?F2 & ?F3).


(** Inside a portamento a plain token changes nothing. *)
Lemma count_step_inner (n d : Z) (t : string) :
  plain_token t = true -> d <> 0 ->
  count_step (n, d, false) t = (n, d, false).
Proof.
  intros H Hd. flags H. unfold count_step. rewrite F1, F2, F3. simpl.
  apply Z.eqb_neq in Hd. rewrite Hd. reflexivity.
Qed.


Lemma count_fold_inner (tokens : list string) : forall n d,
  forallb plain_token tokens = true -> d <> 0 ->
  fold_left count_step tokens (n, d, false) = (n, d, false).
Proof.
  induction tokens as [|t ts IH]; intros n d H Hd; [reflexivity|].
  simpl in H. apply andb_true_iff in H as [Ht Hts].
  cbn [fold_left]. rewrite (count_step_inner n d t Ht Hd). now apply IH.
Qed.

(** What the loop does to a token read while a tie is pending. *)
Lemma count_step_tied (n d : Z) (t : string) :
  count_step (n, d, true) t
  = (n + (if Py.endswith t ")" && (d - 1 =? 0) then 1 else 0),
     (if Py.endswith t ")" then d - 1 else d),
     Py.endswith t "~").
Proof.
  unfold count_step. destruct (Py.endswith t ")"); simpl.
  - destruct (d - 1 =? 0); [reflexivity | now rewrite Z.add_0_r].
  - now rewrite Z.add_0_r.
Qed.

Lemma tilde_not_close (t : string) :
  Py.endswith t "~" = true -> Py.endswith t ")" = false.
Proof. apply endswith_other. discriminate. Qed.

Lemma tilde_not_open (t : string) :
  Py.endswith t "~" = true -> Py.endswith t "(" = false.
Proof. apply endswith_other. discriminate. Qed.

Lemma open_not_close (t : string) :
  Py.endswith t "(" = true -> Py.endswith t ")" = false.
Proof. apply endswith_other. discriminate. Qed.

Lemma open_not_tilde (t : string) :
  Py.endswith t "(" = true -> Py.endswith t "~" = false.
Proof. apply endswith_other. discriminate. Qed.

Lemma close_not_tilde (t : string) :
  Py.endswith t ")" = true -> Py.endswith t "~" = false.
Proof. apply endswith_other. discriminate. Qed.

Lemma close_not_open (t : string) :
  Py.endswith t ")" = true -> Py.endswith t "(" = false.
Proof. apply endswith_other. discriminate. Qed.

(** Tokens that carry a tie on, read while a tie is pending at depth 0,
    leave the state as it is. *)
Lemma count_fold_chain (mids : list string) : forall n,
  Forall (fun t => Py.endswith t "~" = true) mids ->
  fold_left count_step mids (n, 0, true) = (n, 0, true).
Proof.
  induction mids as [|t ts IH]; intros n H; [reflexivity|].
  inversion H as [|? ? Ht Hts]; subst.
  cbn [fold_left]. rewrite count_step_tied, (tilde_not_close t Ht), Ht.
  simpl. rewrite Z.add_0_r. now apply IH.
Qed.


(** C5 (amended).  A token read while a tie is pending adds nothing to
    the count through the tie branch, and the pending-tie flag becomes
    whether that token itself ends with the tie suffix; the only thing
    it can add is the one for closing a portamento to depth exactly 0,
    because that check runs first.  A run of tie-chained tokens that
    starts with a pitch at depth 0, closes no portamento and ends with an
    untied token is counted exactly once; ["c4~", "c8"] gives 1. *)
Theorem tie_run_counted_once :
  (forall n d t,
      count_step (n, d, true) t
      = (n + (if Py.endswith t ")" && (d - 1 =? 0) then 1 else 0),
         (if Py.endswith t ")" then d - 1 else d),
         Py.endswith t "~"))
  /\ (forall first mids last n,
         Py.match_a_to_g first = true ->
         Forall (fun t => Py.endswith t "~" = true) (first :: mids) ->
         Py.endswith last "~" = false ->
         Py.endswith last ")" = false ->
         fold_left count_step (first :: mids ++ [last]) (n, 0, false)
         = (n + 1, 0, false))
  /\ count_singable_notes "c4~ c8" 0 = 1.
Proof.
  split; [exact count_step_tied | split; [|reflexivity]].
  intros first mids last n Hp Hall Hl1 Hl2.
  inversion Hall as [|? ? Hf Hm]; subst.
  cbn [fold_left app]. rewrite fold_left_app.
  assert (E : count_step (n, 0, false) first = (n + 1, 0, true)).
  { unfold count_step.
    rewrite (tilde_not_close first Hf), (tilde_not_open first Hf), Hf, Hp.
    reflexivity. }
  rewrite E, (count_fold_chain mids _ Hm).
  cbn [fold_left]. rewrite count_step_tied, Hl1, Hl2. simpl.
  now rewrite Z.add_0_r.
Qed.

Lemma tie_run_counted_once_witness :
  fold_left count_step ("c4~" :: ["c4~"] ++ ["c8"]) (0, 0, false) = (1, 0, false).
Proof.
  apply (proj1 (proj2 tie_run_counted_once) "c4~" ["c4~"] "c8" 0).
  - reflexivity.
  - repeat constructor.
  - reflexivity.
  - reflexivity.
Defined.

(** C5, as stated, fails: in ["c4(", "d4~", "d8)"] the token "d8)" is
    read while the tie of "d4~" is pending and still adds one to the
    count, since it closes the portamento to depth 0. *)
Lemma tied_token_can_count :
  count_step (1, 1, true) "d8)" = (2, 0, false)
  /\ fold_left count_step ["c4("; "d4~"] (0, 0, false) = (1, 1, true)
  /\ count_singable_notes "c4( d4~ d8)" 0 = 2
  /\ ~ (forall n d t, fst (fst (count_step (n, d, true) t)) = n).
Proof.
  repeat split; try reflexivity.
  intros H. specialize (H 1 1 "d8)"). discriminate H.
Qed.

(** C2 (amended).  The counter returns the count alone.  A portamento
    group entered at depth 0 with no tie pending (a token ending in "(",
    then tokens without suffix, then a token ending in ")") adds one for
    the close that brings the depth back to 0, one more for each of its
    opening and closing tokens that starts with a pitch letter, and
    nothing for the tokens in between; the depth is 0 again afterwards.
    For ["c4(", "d8", "e8)"] that is 3. *)
Theorem portamento_group_count :
  forall first inner last n,
    Py.endswith first "(" = true ->
    forallb plain_token inner = true ->
    Py.endswith last ")" = true ->
    fold_left count_step (first :: inner ++ [last]) (n, 0, false)
    = (n + Z.b2z (Py.match_a_to_g first) + 1 + Z.b2z (Py.match_a_to_g last),
       0, false).
Proof.
  intros first inner last n Ho Hin Hc.
  cbn [fold_left app]. rewrite fold_left_app.
  assert (E : count_step (n, 0, false) first
              = (n + Z.b2z (Py.match_a_to_g first), 1, false)).
  { unfold count_step.
    rewrite (open_not_close first Ho), (open_not_tilde first Ho), Ho. simpl.
    destruct (Py.match_a_to_g first); simpl; [reflexivity | now rewrite Z.add_0_r]. }
  rewrite E, (count_fold_inner inner _ 1 Hin) by discriminate.
  cbn [fold_left]. unfold count_step.
  rewrite Hc, (close_not_tilde last Hc), (close_not_open last Hc). simpl.
  destruct (Py.match_a_to_g last); simpl; [reflexivity | now rewrite Z.add_0_r].
Qed.

Lemma portamento_group_count_witness :
  count_loop (Py.split "c4( d8 e8)") 0 = (3, 0, false).
Proof.
  exact (portamento_group_count "c4(" ["d8"] "e8)" 0 eq_refl eq_refl eq_refl).
Defined.

(** C2, as stated, fails: on ["c4(", "d8", "e8)"] from depth 0 the
    counter returns 3, not 1. *)
Lemma portamento_example_is_three :
  count_singable_notes "c4( d8 e8)" 0 = 3
  /\ count_singable_notes "c4( d8 e8)" 0 <> 1.
Proof.
  split; [reflexivity | discriminate].
Qed.

(** ** The lyric slicer *)

Lemma lyric_slice_fold (lo hi : Z) (tokens : list string) : forall acc pos,
  fold_left (lyric_slice_step lo hi) tokens (acc, pos)
  = (acc ++ window lo hi pos tokens, pos + syllables tokens).
Proof.
  unfold syllables.
  induction tokens as [|t ts IH]; intros acc pos.
  - simpl. now rewrite app_nil_r, Z.add_0_r.
  - cbn [fold_left lyric_slice_step window filter]. rewrite IH.
    destruct ((lo <=? pos) && (pos <? hi)), (negb (t =? "--")%string);
      cbn [length]; rewrite <- ?app_assoc; cbn [app]; f_equal; lia.
Qed.

Lemma lyric_slice_tokens_window (tokens : list string) (lo hi : Z) :
  lyric_slice_tokens tokens lo hi = window lo hi 0 tokens.
Proof.
  unfold lyric_slice_tokens. now rewrite lyric_slice_fold.
Qed.

Lemma syllables_nonneg (tokens : list string) : 0 <= syllables tokens.
Proof. unfold syllables. lia. Qed.

Lemma syllables_cons (t : string) (ts : list string) :
  syllables (t :: ts)
  = (if negb (t =? "--")%string then 1 else 0) + syllables ts.
Proof.
  unfold syllables. cbn [filter].
  destruct (negb (t =? "--")%string); cbn [length]; lia.
Qed.

(** In a line without join markers, past the start of the window the
    slice is an initial segment. *)
Lemma window_started (lo hi : Z) (tokens : list string) : forall pos,
  forallb (fun t => negb (t =? "--")%string) tokens = true ->
  lo <= pos ->
  window lo hi pos tokens = firstn (Z.to_nat (hi - pos)) tokens.
Proof.
  induction tokens as [|t ts IH]; intros pos Hj Hlo.
  - now rewrite firstn_nil.
  - cbn [forallb] in Hj. apply andb_true_iff in Hj as [Ht Hts].
    cbn [window]. rewrite Ht, (IH (pos + 1) Hts) by lia.
    replace (lo <=? pos) with true by (symmetry; now apply Z.leb_le).
    cbn [andb]. destruct (Z.ltb_spec pos hi) as [Hlt | Hge].
    + replace (Z.to_nat (hi - pos)) with (S (Z.to_nat (hi - (pos + 1)))) by lia.
      reflexivity.
    + replace (Z.to_nat (hi - pos)) with 0%nat by lia.
      replace (Z.to_nat (hi - (pos + 1))) with 0%nat by lia.
      reflexivity.
Qed.

Lemma window_join_free (lo hi : Z) (tokens : list string) : forall pos,
  forallb (fun t => negb (t =? "--")%string) tokens = true ->
  pos <= lo <= hi ->
  window lo hi pos tokens
  = firstn (Z.to_nat (hi - lo)) (skipn (Z.to_nat (lo - pos)) tokens).
Proof.
  induction tokens as [|t ts IH]; intros pos Hj Hlo.
  - now rewrite skipn_nil, firstn_nil.
  - destruct (Z.eq_dec pos lo) as [-> | Hne].
    + rewrite Z.sub_diag. cbn [Z.to_nat skipn]. apply window_started; [exact Hj | lia].
    + cbn [forallb] in Hj. apply andb_true_iff in Hj as [Ht Hts].
      cbn [window]. rewrite Ht.
      replace (lo <=? pos) with false by (symmetry; apply Z.leb_gt; lia).
      cbn [andb]. rewrite (IH (pos + 1) Hts) by lia.
      replace (Z.to_nat (lo - pos)) with (S (Z.to_nat (lo - (pos + 1)))) by lia.
      reflexivity.
Qed.

(** Once the start of the window is behind and the end is out of reach,
    every remaining token is taken. *)
Lemma window_all (lo hi : Z) (tokens : list string) : forall pos,
  lo <= pos -> pos + syllables tokens < hi ->
  window lo hi pos tokens = tokens.
Proof.
  induction tokens as [|t ts IH]; intros pos Hlo Hhi; [reflexivity|].
  rewrite syllables_cons in Hhi. pose proof (syllables_nonneg ts) as Hs.
  cbn [window].
  replace (lo <=? pos) with true by (symmetry; now apply Z.leb_le).
  replace (pos <? hi) with true
    by (symmetry; apply Z.ltb_lt; destruct (negb (t =? "--")%string); lia).
  cbn [andb]. f_equal. apply IH; destruct (negb (t =? "--")%string); lia.
Qed.

Lemma window_open_ended (lo hi : Z) (tokens : list string) : forall pos,
  pos + syllables tokens < hi ->
  window lo hi pos tokens = from_position lo pos tokens.
Proof.
  induction tokens as [|t ts IH]; intros pos Hhi; [reflexivity|].
  cbn [from_position]. destruct (Z.leb_spec lo pos) as [Hle | Hgt].
  - now apply window_all.
  - cbn [window].
    replace (lo <=? pos) with false by (symmetry; apply Z.leb_gt; lia).
    cbn [andb]. apply IH. rewrite syllables_cons in Hhi.
    destruct (negb (t =? "--")%string); lia.
Qed.

Lemma from_position_suffix (lo : Z) (tokens : list string) : forall pos,
  exists before, tokens = before ++ from_position lo pos tokens.
Proof.
  induction tokens as [|t ts IH]; intros pos.
  - now exists [].
  - cbn [from_position]. destruct (lo <=? pos).
    + now exists [].
    + destruct (IH (if negb (t =? "--")%string then pos + 1 else pos)) as [b Hb].
      exists (t :: b). cbn [app]. now f_equal.
Qed.

(** C1 (amended).  [create_lyric_slice] returns the tokens whose counter
    value lies in the half-open window from [slice_start] up to but not
    including [slice_end].  In a line without join markers, and with
    [0 <= slice_start <= slice_end], these are the tokens at indices
    [slice_start .. slice_end - 1]: [slice_end - slice_start] of them
    when the line is long enough, with no extra position at the top. *)
Theorem create_lyric_slice_half_open
  (lilypond_lyrics : string) (slice_start slice_end : Z) :
  let tokens := Py.split lilypond_lyrics in
  create_lyric_slice lilypond_lyrics slice_start slice_end
  = Py.join " " (window slice_start slice_end 0 tokens)
  /\ (forallb (fun t => negb (t =? "--")%string) tokens = true ->
      0 <= slice_start <= slice_end ->
      lyric_slice_tokens tokens slice_start slice_end
      = firstn (Z.to_nat (slice_end - slice_start))
               (skipn (Z.to_nat slice_start) tokens)
      /\ (slice_end <= Z.of_nat (length tokens) ->
          Z.of_nat (length (lyric_slice_tokens tokens slice_start slice_end))
          = slice_end - slice_start)).
Proof.
  intros tokens. split.
  - unfold create_lyric_slice. fold tokens.
    now rewrite lyric_slice_tokens_window.
  - intros Hj Hse.
    assert (E : lyric_slice_tokens tokens slice_start slice_end
                = firstn (Z.to_nat (slice_end - slice_start))
                         (skipn (Z.to_nat slice_start) tokens)).
    { rewrite lyric_slice_tokens_window, (window_join_free _ _ _ 0 Hj) by lia.
      now rewrite Z.sub_0_r. }
    split; [exact E|]. intros Hlen.
    rewrite E, length_firstn, length_skipn. lia.
Qed.

Lemma create_lyric_slice_half_open_witness :
  lyric_slice_tokens (Py.split "one two three four") 1 3 = ["two"; "three"]
  /\ Z.of_nat (length (lyric_slice_tokens (Py.split "one two three four") 1 3)) = 2.
Proof.
  pose proof (proj2 (create_lyric_slice_half_open "one two three four" 1 3)) as H.
  destruct H as [E L]; [reflexivity | lia | ].
  split; [exact E | apply L; simpl; lia].
Defined.

(** C1, as stated, fails: on ["one", "two", "three", "four"] the slice
    from 1 to 3 is "two three"; "two three four" is the slice from 1
    to 4. *)
Lemma slice_1_3_is_two_three :
  create_lyric_slice "one two three four" 1 3 = "two three"
  /\ create_lyric_slice "one two three four" 1 3 <> "two three four"
  /\ create_lyric_slice "one two three four" 1 4 = "two three four".
Proof.
  repeat split. discriminate.
Qed.

(** C8 (amended).  When [slice_end] exceeds the number of syllables of
    the line, [create_lyric_slice] returns the line from its first token
    at counter value [slice_start] to its end, and the returned string is
    all the caller gets: nothing tells an underflow apart. *)
Theorem create_lyric_slice_underflow
  (lilypond_lyrics : string) (slice_start slice_end : Z) :
  let tokens := Py.split lilypond_lyrics in
  syllables tokens < slice_end ->
  create_lyric_slice lilypond_lyrics slice_start slice_end
  = Py.join " " (from_position slice_start 0 tokens)
  /\ (exists before, tokens = before ++ from_position slice_start 0 tokens)
  /\ (forall slice_end', syllables tokens < slice_end' ->
        create_lyric_slice lilypond_lyrics slice_start slice_end'
        = create_lyric_slice lilypond_lyrics slice_start slice_end).
Proof.
  intros tokens Hend.
  assert (E : forall hi, syllables tokens < hi ->
                create_lyric_slice lilypond_lyrics slice_start hi
                = Py.join " " (from_position slice_start 0 tokens)).
  { intros hi Hhi. unfold create_lyric_slice. fold tokens.
    rewrite lyric_slice_tokens_window, window_open_ended; [reflexivity | lia]. }
  split; [now apply E | split].
  - apply from_position_suffix.
  - intros hi Hhi. now rewrite !E.
Qed.

Lemma create_lyric_slice_underflow_witness :
  create_lyric_slice "one two three four" 2 9 = "three four".
Proof.
  destruct (create_lyric_slice_underflow "one two three four" 2 9) as [E _].
  - vm_compute. reflexivity.
  - exact E.
Defined.

(** C8, as stated, fails in its last part: a call whose interval stays
    within the line and a call whose interval exceeds it return the same
    string, so no function of the result reports the underflow. *)
Lemma underflow_not_reported :
  create_lyric_slice "one two" 0 2 = create_lyric_slice "one two" 0 5
  /\ ~ exists report : string -> bool,
        forall lyrics slice_start slice_end,
          report (create_lyric_slice lyrics slice_start slice_end)
          = (syllables (Py.split lyrics) <? slice_end).
Proof.
  split; [reflexivity|].
  intros [report H].
  pose proof (H "one two" 0 2) as H2. pose proof (H "one two" 0 5) as H5.
  change (create_lyric_slice "one two" 0 5) with (create_lyric_slice "one two" 0 2) in H5.
  rewrite H2 in H5. discriminate H5.
Qed.

(** ** The lyric normalizer *)

Lemma append_nil_r (s : string) : (s ++ "")%string = s.
Proof. induction s as [|c s IH]; simpl; [reflexivity | now rewrite IH]. Qed.

Lemma append_assoc (a b c : string) :
  ((a ++ b) ++ c)%string = (a ++ (b ++ c))%string.
Proof. induction a as [|x a IH]; simpl; [reflexivity | now rewrite IH]. Qed.

Lemma glue_snoc (group : list string) (t : string) :
  glue (group ++ [t]) = (glue group ++ t)%string.
Proof.
  unfold glue. induction group as [|g gs IH]; simpl.
  - apply append_nil_r.
  - now rewrite IH, append_assoc.
Qed.

Lemma glue_single (t : string) : glue [t] = t.
Proof. apply append_nil_r. Qed.

Lemma unsnoc_snoc {A : Type} (l : list A) (x : A) :
  Py.unsnoc (l ++ [x]) = Some (l, x).
Proof.
  unfold Py.unsnoc. rewrite rev_app_distr. simpl. now rewrite rev_involutive.
Qed.

Lemma unsnoc_inv {A : Type} (l : list A) :
  match Py.unsnoc l with
  | None => l = []
  | Some (init, x) => l = init ++ [x]
  end.
Proof.
  destruct l as [|a l] using rev_ind.
  - reflexivity.
  - now rewrite unsnoc_snoc.
Qed.

Lemma ordinary_inv (t : string) :
  ordinary t = true -> (t =? "__")%string = false /\ (t =? "--")%string = false.
Proof.
  unfold ordinary. rewrite andb_true_iff, !negb_true_iff. tauto.
Qed.

Lemma ordinary_marker (t : string) :
  (t =? "__")%string = false -> (t =? "--")%string = false -> ordinary t = true.
Proof. unfold ordinary. now intros -> ->. Qed.

Lemma step_melisma (st : list string * bool) :
  normal_lyrics_step st "__" = Return st.
Proof. now destruct st. Qed.

Lemma step_join (words : list string) (join_next : bool) :
  normal_lyrics_step (words, join_next) "--" = Return (words, true).
Proof. reflexivity. Qed.

Lemma step_attach (words : list string) (word t : string) :
  ordinary t = true ->
  normal_lyrics_step (words ++ [word], true) t
  = Return (words ++ [(word ++ t)%string], false).
Proof.
  intros H. apply ordinary_inv in H as [H1 H2].
  unfold normal_lyrics_step. now rewrite H1, H2, unsnoc_snoc.
Qed.

Lemma step_new_word (words : list string) (t : string) :
  ordinary t = true ->
  normal_lyrics_step (words, false) t = Return (words ++ [t], false).
Proof.
  intros H. apply ordinary_inv in H as [H1 H2].
  unfold normal_lyrics_step. now rewrite H1, H2.
Qed.

Lemma step_no_word (t : string) :
  ordinary t = true -> normal_lyrics_step ([], true) t = Raise IndexError.
Proof.
  intros H. apply ordinary_inv in H as [H1 H2].
  unfold normal_lyrics_step. now rewrite H1, H2.
Qed.

(** The three kinds of token. *)
Lemma token_cases (t : string) :
  t = "__" \/ t = "--" \/ ordinary t = true.
Proof.
  destruct (String.eqb_spec t "__") as [-> | H1]; [now left|].
  destruct (String.eqb_spec t "--") as [-> | H2]; [now right; left|].
  right; right. apply ordinary_marker; now apply String.eqb_neq.
Qed.

(** The words are the ordinary tokens, in order, cut into non-empty
    groups and glued group by group. *)
Lemma normal_lyrics_groups (tokens : list string) :
  forall groups join_next words' join_next',
    Forall (fun g => g <> []) groups ->
    for_each normal_lyrics_step tokens (map glue groups, join_next)
    = Return (words', join_next') ->
    exists groups',
      words' = map glue groups'
      /\ Forall (fun g => g <> []) groups'
      /\ concat groups' = concat groups ++ filter ordinary tokens.
Proof.
  induction tokens as [|t ts IH]; intros groups j words' j' Hne Hrun.
  - cbn in Hrun. injection Hrun as <- <-. exists groups.
    now rewrite app_nil_r.
  - cbn [for_each] in Hrun.
    destruct (token_cases t) as [-> | [-> | Ho]].
    + rewrite step_melisma in Hrun. cbn [bind] in Hrun.
      exact (IH _ _ _ _ Hne Hrun).
    + rewrite step_join in Hrun. cbn [bind] in Hrun.
      exact (IH _ _ _ _ Hne Hrun).
    + cbn [filter]. rewrite Ho. destruct j.
      * destruct groups as [|g gs _] using rev_ind.
        { cbn [map] in Hrun. rewrite (step_no_word t Ho) in Hrun. discriminate. }
        rewrite map_app in Hrun. cbn [map] in Hrun.
        rewrite (step_attach _ _ t Ho), <- glue_snoc in Hrun. cbn [bind] in Hrun.
        change [glue (g ++ [t])] with (map glue [g ++ [t]]) in Hrun.
        rewrite <- map_app in Hrun.
        apply Forall_app in Hne as [Hgs _].
        assert (Hne' : Forall (fun g => g <> []) (gs ++ [g ++ [t]])).
        { apply Forall_app. split; [exact Hgs|]. repeat constructor.
          intros E. now apply app_eq_nil in E as [_ E]. }
        destruct (IH _ _ _ _ Hne' Hrun) as (groups' & Hw & Hn & Hc).
        exists groups'. repeat split; try assumption.
        rewrite Hc, !concat_app. cbn [concat]. rewrite !app_nil_r.
        now rewrite <- !app_assoc.
      * rewrite (step_new_word _ t Ho) in Hrun. cbn [bind] in Hrun.
        replace (map glue groups ++ [t]) with (map glue (groups ++ [[t]])) in Hrun
          by (rewrite map_app; cbn [map]; now rewrite glue_single).
        assert (Hne' : Forall (fun g => g <> []) (groups ++ [[t]])).
        { apply Forall_app. split; [exact Hne|]. repeat constructor. discriminate. }
        destruct (IH _ _ _ _ Hne' Hrun) as (groups' & Hw & Hn & Hc).
        exists groups'. repeat split; try assumption.
        rewrite Hc, concat_app. cbn [concat]. rewrite app_nil_r.
        now rewrite <- app_assoc.
Qed.

(** Once there is a word, the loop runs to its end and keeps a word. *)
Lemma normal_lyrics_runs (tokens : list string) : forall words join_next,
  words <> [] ->
  exists words' join_next',
    for_each normal_lyrics_step tokens (words, join_next)
    = Return (words', join_next')
    /\ words' <> [].
Proof.
  induction tokens as [|t ts IH]; intros words j Hne.
  - now exists words, j.
  - cbn [for_each]. destruct (token_cases t) as [-> | [-> | Ho]].
    + rewrite step_melisma. cbn [bind]. now apply IH.
    + rewrite step_join. cbn [bind]. now apply IH.
    + destruct j.
      * destruct words as [|w ws _] using rev_ind; [contradiction|].
        rewrite (step_attach _ _ t Ho). cbn [bind]. apply IH.
        intros E. now apply app_eq_nil in E as [_ E].
      * rewrite (step_new_word _ t Ho). cbn [bind]. apply IH.
        intros E. now apply app_eq_nil in E as [_ E].
Qed.

(** With a join pending and no word yet, the first ordinary token
    raises. *)
Lemma normal_lyrics_pending (tokens : list string) :
  for_each normal_lyrics_step tokens ([], true)
  = if existsb ordinary tokens then Raise IndexError else Return ([], true).
Proof.
  induction tokens as [|t ts IH]; [reflexivity|].
  cbn [for_each existsb]. destruct (token_cases t) as [-> | [-> | Ho]].
  - rewrite step_melisma. exact IH.
  - rewrite step_join. exact IH.
  - now rewrite (step_no_word t Ho), Ho.
Qed.

Lemma normal_lyrics_start (tokens : list string) :
  if join_before_word tokens
  then for_each normal_lyrics_step tokens ([], false) = Raise IndexError
  else exists st, for_each normal_lyrics_step tokens ([], false) = Return st.
Proof.
  induction tokens as [|t ts IH].
  - cbn. now exists ([], false).
  - cbn [for_each]. destruct (token_cases t) as [-> | [-> | Ho]].
    + rewrite step_melisma. exact IH.
    + rewrite step_join. cbn [bind join_before_word String.eqb Ascii.eqb Bool.eqb].
      cbn. rewrite normal_lyrics_pending.
      destruct (existsb ordinary ts); [reflexivity | now exists ([], true)].
    + destruct (ordinary_inv t Ho) as [H1 H2].
      cbn [join_before_word]. rewrite H1, H2, (step_new_word _ t Ho).
      cbn [bind].
      destruct (normal_lyrics_runs ts [t] false) as (w & j & E & _);
        [discriminate|].
      cbn [app] in E |- *. now exists (w, j).
Qed.

Lemma create_normal_lyrics_outcome (lilypond_lyrics : string) :
  if join_before_word (Py.split lilypond_lyrics)
  then create_normal_lyrics lilypond_lyrics = Raise IndexError
  else exists out, create_normal_lyrics lilypond_lyrics = Return out.
Proof.
  unfold create_normal_lyrics, normal_words.
  pose proof (normal_lyrics_start (Py.split lilypond_lyrics)) as H.
  destruct (join_before_word (Py.split lilypond_lyrics)).
  - now rewrite H.
  - destruct H as [[words j] ->]. cbn [bind]. eauto.
Qed.

Lemma join_before_word_shape (tokens : list string) :
  join_before_word tokens = true
  <-> exists k rest,
        tokens = repeat "__" k ++ "--" :: rest /\ existsb ordinary rest = true.
Proof.
  split.
  - induction tokens as [|t ts IH]; [discriminate|].
    cbn [join_before_word].
    destruct (String.eqb_spec t "__") as [-> | _].
    + intros H. destruct (IH H) as (k & rest & -> & Hr).
      now exists (S k), rest.
    + destruct (String.eqb_spec t "--") as [-> | _]; [|discriminate].
      intros H. now exists 0%nat, ts.
  - intros (k & rest & -> & Hr). induction k as [|k IH]; [exact Hr | exact IH].
Qed.

(** On a line without join markers every ordinary token is a word of
    its own. *)
Lemma normal_words_join_free (tokens : list string) : forall words,
  forallb (fun t => negb (t =? "--")%string) tokens = true ->
  for_each normal_lyrics_step tokens (words, false)
  = Return (words ++ filter ordinary tokens, false).
Proof.
  induction tokens as [|t ts IH]; intros words H.
  - cbn. now rewrite app_nil_r.
  - cbn [forallb] in H. apply andb_true_iff in H as [Ht Hts].
    cbn [for_each filter]. destruct (token_cases t) as [-> | [-> | Ho]].
    + rewrite step_melisma. cbn [bind]. exact (IH _ Hts).
    + discriminate Ht.
    + rewrite (step_new_word words t Ho), Ho. cbn [bind].
      now rewrite (IH _ Hts), <- app_assoc.
Qed.

Lemma all_chars_append (p : ascii -> bool) (a b : string) :
  all_chars p (a ++ b) = all_chars p a && all_chars p b.
Proof.
  induction a as [|c a IH]; [reflexivity|].
  cbn [String.append all_chars]. now rewrite IH, andb_assoc.
Qed.

Lemma glue_all_chars (p : ascii -> bool) (group : list string) :
  Forall (fun t => all_chars p t = true) group ->
  all_chars p (glue group) = true.
Proof.
  unfold glue. induction 1 as [|t g Ht _ IH]; [reflexivity|].
  cbn [fold_right]. now rewrite all_chars_append, Ht, IH.
Qed.

Lemma marker_free_not_marker (w : string) :
  marker_free w = true -> w <> "--" /\ w <> "__".
Proof.
  intros H. split; intros ->; discriminate H.
Qed.

(** C7 (amended).  [create_normal_lyrics] walks the tokens from left to
    right: a melisma marker "__" leaves the state untouched, a join
    marker "--" only sets [join_next], an ordinary token read with
    [join_next] set is appended to the last word, and an ordinary token
    read otherwise starts a new word.  Every word returned is one or
    more consecutive ordinary tokens of the line written together, the
    ordinary tokens being used up in order, so no marker token of the
    line is copied into the result; on a line without join markers the
    words are the ordinary tokens themselves, and when no ordinary token
    holds a hyphen or an underscore no returned word holds one, hence
    none is or holds a marker.  A line with no join marker ahead of its
    first word is always normalized.  "Ma -- ry had a lit -- tle lamb"
    gives "Mary had a little lamb". *)
Theorem create_normal_lyrics_walk :
  (forall st, normal_lyrics_step st "__" = Return st)
  /\ (forall words join_next,
         normal_lyrics_step (words, join_next) "--" = Return (words, true))
  /\ (forall words word t,
         ordinary t = true ->
         normal_lyrics_step (words ++ [word], true) t
         = Return (words ++ [(word ++ t)%string], false))
  /\ (forall words t,
         ordinary t = true ->
         normal_lyrics_step (words, false) t = Return (words ++ [t], false))
  /\ (forall lyrics out,
         create_normal_lyrics lyrics = Return out ->
         exists groups,
           out = Py.join " " (map glue groups)
           /\ Forall (fun g => g <> []) groups
           /\ concat groups = filter ordinary (Py.split lyrics))
  /\ (forall lyrics,
         join_before_word (Py.split lyrics) = false ->
         exists out, create_normal_lyrics lyrics = Return out)
  /\ create_normal_lyrics "Ma -- ry had a lit -- tle lamb"
     = Return "Mary had a little lamb"
  /\ (forall lyrics,
         forallb (fun t => negb (t =? "--")%string) (Py.split lyrics) = true ->
         normal_words (Py.split lyrics) = Return (filter ordinary (Py.split lyrics))
         /\ create_normal_lyrics lyrics
            = Return (Py.join " " (filter ordinary (Py.split lyrics))))
  /\ (forall lyrics words,
         normal_words (Py.split lyrics) = Return words ->
         Forall (fun t => marker_free t = true) (filter ordinary (Py.split lyrics)) ->
         Forall (fun w => marker_free w = true /\ w <> "--" /\ w <> "__") words).
Proof.
  split; [exact step_melisma|].
  split; [exact step_join|].
  split; [exact step_attach|].
  split; [exact step_new_word|].
  split; [|split; [|split; [reflexivity | split]]].
  - intros lyrics out. unfold create_normal_lyrics, normal_words.
    destruct (for_each normal_lyrics_step (Py.split lyrics) ([], false))
      as [[words j] | e |] eqn:Hrun; cbn [bind]; try discriminate.
    intros [= <-].
    destruct (normal_lyrics_groups (Py.split lyrics) [] false words j
                (Forall_nil _) Hrun) as (groups & -> & Hne & Hc).
    now exists groups.
  - intros lyrics H.
    pose proof (create_normal_lyrics_outcome lyrics) as Ho.
    now rewrite H in Ho.
  - intros lyrics H. unfold create_normal_lyrics, normal_words.
    now rewrite (normal_words_join_free _ [] H).
  - intros lyrics words. unfold normal_words.
    destruct (for_each normal_lyrics_step (Py.split lyrics) ([], false))
      as [[words' j] | e |] eqn:Hrun; cbn [bind]; try discriminate.
    intros [= <-] Hfree.
    destruct (normal_lyrics_groups (Py.split lyrics) [] false words' j
                (Forall_nil _) Hrun) as (groups & -> & _ & Hc).
    cbn [concat app] in Hc. rewrite <- Hc in Hfree.
    apply Forall_concat in Hfree. apply Forall_map.
    apply (Forall_impl _ (P := Forall (fun t => marker_free t = true)));
      [|exact Hfree].
    intros g Hg.
    assert (Hw : marker_free (glue g) = true) by now apply glue_all_chars.
    split; [exact Hw | now apply marker_free_not_marker].
Qed.

Lemma create_normal_lyrics_walk_witness :
  normal_lyrics_step (["Ma"], true) "ry" = Return (["Mary"], false)
  /\ normal_lyrics_step (["Mary"], false) "had" = Return (["Mary"; "had"], false)
  /\ (exists out, create_normal_lyrics "Ma -- ry had a lit -- tle lamb" = Return out)
  /\ create_normal_lyrics "Twin kle __ star" = Return "Twin kle star"
  /\ Forall (fun w => marker_free w = true /\ w <> "--" /\ w <> "__")
       ["Mary"; "had"; "a"; "little"; "lamb"].
Proof.
  destruct create_normal_lyrics_walk
    as (_ & _ & Hattach & Hnew & _ & Hruns & _ & Hfree & Hclean).
  split; [|split; [|split; [|split]]].
  - apply (Hattach [] "Ma" "ry"). reflexivity.
  - apply (Hnew ["Mary"] "had"). reflexivity.
  - apply Hruns. reflexivity.
  - exact (proj2 (Hfree "Twin kle __ star" eq_refl)).
  - refine (Hclean "Ma -- ry had a lit -- tle lamb"
              ["Mary"; "had"; "a"; "little"; "lamb"] eq_refl _).
    vm_compute. repeat constructor.
Defined.

(** C7, as stated, fails: the words returned can be or hold a marker.
    "- -- -" gives the join marker itself, "_ -- _" the melisma marker,
    and "a- -- -b" a word with the join marker inside. *)
Lemma glued_word_can_be_marker :
  create_normal_lyrics "- -- -" = Return "--"
  /\ create_normal_lyrics "_ -- _" = Return "__"
  /\ create_normal_lyrics "a- -- -b" = Return "a--b"
  /\ normal_words (Py.split "- -- -") = Return ["--"].
Proof.
  repeat split.
Qed.

(** C10 (amended).  [create_normal_lyrics] raises IndexError exactly
    when, after any leading melisma markers, the line has a join marker
    and somewhere after it a token that is neither marker; it raises
    nothing else and always terminates.  A join marker followed only by
    markers raises nothing. *)
Theorem create_normal_lyrics_index_error (lilypond_lyrics : string) :
  (create_normal_lyrics lilypond_lyrics = Raise IndexError
   <-> exists k rest,
         Py.split lilypond_lyrics = repeat "__" k ++ "--" :: rest
         /\ existsb ordinary rest = true)
  /\ (forall e, create_normal_lyrics lilypond_lyrics = Raise e -> e = IndexError)
  /\ create_normal_lyrics lilypond_lyrics <> OutOfFuel.
Proof.
  pose proof (create_normal_lyrics_outcome lilypond_lyrics) as Ho.
  rewrite <- join_before_word_shape.
  destruct (join_before_word (Py.split lilypond_lyrics)).
  - rewrite Ho. repeat split; try congruence.
  - destruct Ho as [out ->]. repeat split; try congruence; discriminate.
Qed.

Lemma create_normal_lyrics_index_error_witness :
  create_normal_lyrics "__ -- ry" = Raise IndexError.
Proof.
  apply (proj1 (create_normal_lyrics_index_error "__ -- ry")).
  exists 1%nat, ["ry"]. split; reflexivity.
Defined.

(** C10, as stated, fails: in "-- __" and in "-- --" the first token
    that is not a melisma marker is a join marker and another token
    follows it, yet the call returns the empty string. *)
Lemma join_then_marker_returns :
  create_normal_lyrics "-- __" = Return ""
  /\ create_normal_lyrics "-- --" = Return ""
  /\ ~ (forall lyrics k t rest,
          Py.split lyrics = repeat "__" k ++ "--" :: t :: rest ->
          create_normal_lyrics lyrics = Raise IndexError).
Proof.
  repeat split.
  intros H. specialize (H "-- __" 0%nat "__" [] eq_refl). discriminate H.
Qed.

(** ** The shard splitter *)

Close Scope Z_scope.

(** *** Words of joined lines *)

Lemma split_from_space (a b : string) : forall cur,
  Py.split_from cur (a ++ String " " b)
  = Py.split_from cur a ++ Py.split b.
Proof.
  induction a as [|c a IH]; intros cur.
  - cbn. now destruct (cur =? "")%string.
  - cbn [String.append Py.split_from].
    destruct (Py.isspace c); [destruct (cur =? "")%string|]; rewrite IH;
      reflexivity.
Qed.

Lemma split_join (l : list string) :
  Py.split (Py.join " " l) = words_of l.
Proof.
  unfold words_of. induction l as [|x [|y l] IH].
  - reflexivity.
  - cbn. now rewrite app_nil_r.
  - change (Py.join " " (x :: y :: l))
      with (x ++ String " " (Py.join " " (y :: l)))%string.
    unfold Py.split at 1. rewrite split_from_space, IH. reflexivity.
Qed.



(** *** The count of a segment made of lines *)

Open Scope Z_scope.





Close Scope Z_scope.

(** *** The compensation loop *)

Lemma compensate_unfold (fuel : nat) (shard rest : list string) (found done : nat) :
  compensate (S fuel) shard rest found done
  = if Nat.eqb found done then Return (shard, rest)
    else compensate fuel (shard ++ firstn found rest) (skipn found rest)
           (num_comments (shard ++ firstn found rest))
           (done + length (firstn found rest)).
Proof. reflexivity. Qed.

Lemma compensate_no_raise (fuel : nat) : forall shard rest found done e,
  compensate fuel shard rest found done <> Raise e.
Proof.
  induction fuel as [|fuel IH]; intros shard rest found done e.
  - cbn. destruct (Nat.eqb found done); discriminate.
  - rewrite compensate_unfold. destruct (Nat.eqb found done); [discriminate|].
    apply IH.
Qed.

(** The loop only moves lines from the front of the rest to the end of
    the shard. *)
Lemma compensate_moves (fuel : nat) : forall shard rest found done shard' rest',
  compensate fuel shard rest found done = Return (shard', rest') ->
  shard' ++ rest' = shard ++ rest.
Proof.
  induction fuel as [|fuel IH]; intros shard rest found done shard' rest'.
  - cbn. destruct (Nat.eqb found done); [|discriminate].
    now intros [= <- <-].
  - rewrite compensate_unfold. destruct (Nat.eqb found done).
    + now intros [= <- <-].
    + intros H. apply IH in H. rewrite H, <- app_assoc.
      now rewrite firstn_skipn.
Qed.

(** With nothing left to take and the two counts apart, the loop body
    changes nothing: the loop never ends. *)
Lemma compensate_stuck (fuel : nat) (shard : list string) (done : nat) :
  num_comments shard <> done ->
  compensate fuel shard [] (num_comments shard) done = OutOfFuel.
Proof.
  intros Hne. apply Nat.eqb_neq in Hne.
  induction fuel as [|fuel IH].
  - cbn. now rewrite Hne.
  - rewrite compensate_unfold, Hne, firstn_nil, skipn_nil, app_nil_r.
    cbn [length]. now rewrite Nat.add_0_r.
Qed.

Lemma num_comments_app (l1 l2 : list string) :
  num_comments (l1 ++ l2) = num_comments l1 + num_comments l2.
Proof.
  unfold num_comments. now rewrite map_app, list_sum_app.
Qed.

Lemma num_comments_firstn_skipn (n : nat) (l : list string) :
  num_comments l = num_comments (firstn n l) + num_comments (skipn n l).
Proof. now rewrite <- num_comments_app, firstn_skipn. Qed.

Lemma take_shard_moves (fuel : nat) (normalized : list string) (l : nat)
  (shard rest : list string) :
  take_shard fuel normalized l = Return (shard, rest) ->
  shard ++ rest = normalized.
Proof.
  unfold take_shard. intros H. apply compensate_moves in H.
  now rewrite H, firstn_skipn.
Qed.

(** Without comment lines a shard is the next [l] lines, whatever the
    fuel. *)
Lemma take_shard_plain (fuel : nat) (normalized : list string) (l : nat) :
  num_comments normalized = 0 ->
  take_shard fuel normalized l = Return (firstn l normalized, skipn l normalized).
Proof.
  intros H0. unfold take_shard.
  rewrite (num_comments_firstn_skipn l normalized) in H0.
  assert (E : num_comments (firstn l normalized) = 0) by lia.
  rewrite E. now destruct fuel.
Qed.

(** *** The loop over the shard lengths *)

Lemma firstn_plus {A : Type} (a b : nat) : forall l : list A,
  firstn (a + b) l = firstn a l ++ firstn b (skipn a l).
Proof.
  induction a as [|a IH]; intros l; [reflexivity|].
  destruct l as [|x l]; cbn [Nat.add firstn skipn app].
  - now rewrite firstn_nil.
  - now rewrite IH.
Qed.

Lemma chunks_concat {A : Type} (lengths : list nat) : forall l : list A,
  concat (chunks lengths l) = firstn (list_sum lengths) l.
Proof.
  induction lengths as [|n ns IH]; intros l; [reflexivity|].
  change (list_sum (n :: ns)) with (n + list_sum ns).
  cbn [chunks concat]. now rewrite IH, firstn_plus.
Qed.

Lemma chunks_length {A : Type} (lengths : list nat) : forall l : list A,
  length (chunks lengths l) = length lengths.
Proof.
  induction lengths as [|n ns IH]; intros l; [reflexivity|].
  cbn [chunks length]. now rewrite IH.
Qed.

Lemma note_shards_step_no_raise (fuel : nat) (st : list string * list string)
  (l : nat) (e : exn) :
  note_shards_step fuel st l <> Raise e.
Proof.
  destruct st as [shards rest]. unfold note_shards_step, take_shard.
  pose proof (compensate_no_raise fuel (firstn l rest) (skipn l rest)
                (num_comments (firstn l rest)) 0) as H.
  destruct (compensate fuel (firstn l rest) (skipn l rest) _ 0)
    as [[shard rest'] | e' |]; cbn [bind]; try discriminate.
  now elim (H e').
Qed.

Lemma note_shards_no_raise (fuel : nat) (lengths : list nat) : forall st e,
  for_each (note_shards_step fuel) lengths st <> Raise e.
Proof.
  induction lengths as [|l ls IH]; intros st e; [discriminate|].
  cbn [for_each].
  pose proof (note_shards_step_no_raise fuel st l) as H.
  destruct (note_shards_step fuel st l) as [st' | e' |]; cbn [bind].
  - apply IH.
  - now elim (H e').
  - discriminate.
Qed.

(** The shard strings are the shards of lines, each joined by a space. *)
Lemma note_shards_of_lines (fuel : nat) (lengths : list nat) : forall shards rest,
  for_each (note_shards_step fuel) lengths (map (Py.join " ") shards, rest)
  = ('(shards', rest') <- for_each (shard_lines_step fuel) lengths (shards, rest) ;;
     Return (map (Py.join " ") shards', rest')).
Proof.
  induction lengths as [|l ls IH]; intros shards rest; [reflexivity|].
  cbn [for_each]. unfold note_shards_step, shard_lines_step.
  destruct (take_shard fuel rest l) as [[shard rest'] | e |]; cbn [bind];
    try reflexivity.
  rewrite <- IH, map_app. reflexivity.
Qed.

Lemma shard_lines_step_eq (fuel : nat) (shards : list (list string))
  (rest : list string) (l : nat) :
  shard_lines_step fuel (shards, rest) l
  = ('(shard, rest') <- take_shard fuel rest l ;;
     Return (shards ++ [shard], rest')).
Proof. reflexivity. Qed.

(** Every line stays where it was: the shards, then the rest. *)
Lemma shard_lines_moves (fuel : nat) (lengths : list nat) :
  forall shards rest shards' rest',
    for_each (shard_lines_step fuel) lengths (shards, rest)
    = Return (shards', rest') ->
    concat shards' ++ rest' = concat shards ++ rest
    /\ length shards' = length shards + length lengths.
Proof.
  induction lengths as [|l ls IH]; intros shards rest shards' rest' H.
  - cbn in H. injection H as <- <-. now rewrite Nat.add_0_r.
  - cbn [for_each] in H. rewrite shard_lines_step_eq in H.
    destruct (take_shard fuel rest l) as [[shard rest1] | e |] eqn:Ht;
      cbn [bind] in H; try discriminate.
    apply IH in H as [Hc Hl]. apply take_shard_moves in Ht.
    rewrite Hc, Hl, concat_app, length_app. cbn [concat length].
    rewrite app_nil_r, <- app_assoc, Ht. split; [reflexivity | lia].
Qed.

Lemma shard_lines_plain (fuel : nat) (lengths : list nat) : forall shards rest,
  num_comments rest = 0 ->
  for_each (shard_lines_step fuel) lengths (shards, rest)
  = Return (shards ++ chunks lengths rest, skipn (list_sum lengths) rest).
Proof.
  induction lengths as [|l ls IH]; intros shards rest H0.
  - cbn. now rewrite app_nil_r.
  - cbn [for_each]. rewrite shard_lines_step_eq.
    rewrite (take_shard_plain fuel rest l H0). cbn [bind].
    rewrite IH.
    + change (list_sum (l :: ls)) with (l + list_sum ls).
      cbn [chunks]. rewrite <- app_assoc, skipn_skipn.
      now rewrite (Nat.add_comm (list_sum ls) l).
    + rewrite (num_comments_firstn_skipn l rest) in H0. lia.
Qed.

Lemma note_shards_loop_lines (fuel : nat) (normalized : list string)
  (lengths : list nat) :
  note_shards_loop fuel normalized lengths
  = ('(shards, rest) <- shard_lines_loop fuel normalized lengths ;;
     Return (map (Py.join " ") shards, rest)).
Proof. exact (note_shards_of_lines fuel lengths [] normalized). Qed.

(** *** The function around the loop *)

Section SplitterFacts.

Context {Container : Type}.
Variable parser : string -> outcome Container.
Variable format_lilypond_value : Container -> string.
Variable len : Container -> nat.

Lemma comprehension_raise {A B : Type} (f : A -> outcome B) (xs : list A) (e : exn) :
  comprehension f xs = Raise e -> exists x, In x xs /\ f x = Raise e.
Proof.
  induction xs as [|x xs IH]; [discriminate|].
  cbn [comprehension]. destruct (f x) as [y | e' |] eqn:Hx; cbn [bind].
  - destruct (comprehension f xs) as [ys | e'' |]; cbn [bind]; try discriminate.
    intros [= ->]. destruct (IH eq_refl) as (x' & Hin & Hf).
    exists x'. split; [now right | exact Hf].
  - intros [= ->]. exists x. split; [now left | exact Hx].
  - discriminate.
Qed.

Lemma comprehension_returns {A B : Type} (f : A -> outcome B) (xs : list A)
  (ys : list B) :
  comprehension f xs = Return ys ->
  forall x, In x xs -> exists y, f x = Return y.
Proof.
  revert ys. induction xs as [|x0 xs IH]; intros ys H x Hin; [contradiction|].
  cbn [comprehension] in H. destruct (f x0) as [y0 | e |] eqn:Hx;
    cbn [bind] in H; try discriminate.
  destruct (comprehension f xs) as [ys' | e |]; cbn [bind] in H;
    try discriminate.
  destruct Hin as [<- | Hin]; [now exists y0 | exact (IH ys' eq_refl x Hin)].
Qed.

Lemma split_newline (s : string) :
  Py.split_sep s newline = Return (Py.split_sep_from newline 0 "" s).
Proof. reflexivity. Qed.

(** What a normal return of the splitter went through. *)
Lemma create_normal_note_shards_returns
  (fuel : nat) (notes relative split_symbol : string) (note_shards : list string) :
  create_normal_note_shards parser format_lilypond_value len
    fuel notes relative split_symbol = Return note_shards ->
  exists abjad_notes segments shard_lengths rest,
    parser (relative_block relative notes) = Return abjad_notes
    /\ Py.split_sep notes split_symbol = Return segments
    /\ comprehension (segment_length parser len relative) segments = Return shard_lengths
    /\ note_shards_loop fuel (normalized_lines (format_lilypond_value abjad_notes))
         shard_lengths = Return (note_shards, rest).
Proof.
  unfold create_normal_note_shards.
  destruct (parser (relative_block relative notes)) as [abjad | e |] eqn:Hp;
    cbn [bind]; try discriminate.
  rewrite split_newline. cbn [bind].
  destruct (Py.split_sep notes split_symbol) as [segments | e |] eqn:Hs;
    cbn [bind]; try discriminate.
  destruct (comprehension (segment_length parser len relative) segments) as [lengths | e |] eqn:Hc;
    cbn [bind]; try discriminate.
  fold (normalized_lines (format_lilypond_value abjad)).
  destruct (note_shards_loop fuel _ lengths) as [[shards rest] | e |] eqn:Hl;
    cbn [bind]; try discriminate.
  intros [= <-]. exists abjad, segments, lengths, rest. now repeat split.
Qed.

(** An exception of the splitter is the parser's, on the whole notation
    or on one segment, or ValueError for an empty split symbol. *)
Lemma create_normal_note_shards_raises
  (fuel : nat) (notes relative split_symbol : string) (e : exn) :
  create_normal_note_shards parser format_lilypond_value len
    fuel notes relative split_symbol = Raise e ->
  parser (relative_block relative notes) = Raise e
  \/ (split_symbol = "" /\ e = ValueError)
  \/ exists segments n,
       Py.split_sep notes split_symbol = Return segments
       /\ In n segments
       /\ parser (relative_block relative n) = Raise e.
Proof.
  unfold create_normal_note_shards.
  destruct (parser (relative_block relative notes)) as [abjad | e' |];
    cbn [bind]; try discriminate; [|intros [= ->]; now left].
  rewrite split_newline. cbn [bind]. unfold Py.split_sep at 1.
  destruct (String.eqb_spec split_symbol "") as [-> | Hsym]; cbn [bind].
  { intros [= <-]. right; left. now split. }
  destruct (comprehension (segment_length parser len relative) (Py.split_sep_from split_symbol 0 "" notes))
    as [lengths | e' |] eqn:Hc; cbn [bind]; try discriminate.
  - fold (normalized_lines (format_lilypond_value abjad)).
    pose proof (note_shards_no_raise fuel lengths
                  ([], normalized_lines (format_lilypond_value abjad))) as Hn.
    unfold note_shards_loop.
    destruct (for_each (note_shards_step fuel) lengths _) as [[shards rest] | e' |];
      cbn [bind]; try discriminate.
    now elim (Hn e').
  - intros [= ->]. right; right.
    apply comprehension_raise in Hc as (n & Hin & Hn).
    exists (Py.split_sep_from split_symbol 0 "" notes), n.
    repeat split; [|exact Hin|].
    + unfold Py.split_sep. apply String.eqb_neq in Hsym. now rewrite Hsym.
    + unfold segment_length in Hn.
      destruct (parser (relative_block relative n)); cbn [bind] in Hn;
        congruence.
Qed.

Lemma create_normal_note_shards_propagates
  (fuel : nat) (notes relative split_symbol : string) (e : exn) :
  parser (relative_block relative notes) = Raise e ->
  create_normal_note_shards parser format_lilypond_value len
    fuel notes relative split_symbol = Raise e.
Proof.
  intros H. unfold create_normal_note_shards. now rewrite H.
Qed.

(** A segment the parser rejects leaves the splitter without a result:
    nothing catches the exception. *)
Lemma create_normal_note_shards_no_recovery
  (fuel : nat) (notes relative split_symbol : string)
  (segments : list string) (n : string) (e : exn) :
  Py.split_sep notes split_symbol = Return segments ->
  In n segments ->
  parser (relative_block relative n) = Raise e ->
  forall note_shards,
    create_normal_note_shards parser format_lilypond_value len
      fuel notes relative split_symbol <> Return note_shards.
Proof.
  intros Hs Hin Hn note_shards H.
  apply create_normal_note_shards_returns in H
    as (abjad & segments' & lengths & rest & _ & Hs' & Hc & _).
  rewrite Hs in Hs'. injection Hs' as <-.
  destruct (comprehension_returns _ _ _ Hc n Hin) as [y Hy].
  unfold segment_length in Hy. rewrite Hn in Hy. discriminate Hy.
Qed.

End SplitterFacts.

(** The compensation loop takes [num_comments_found] further lines in
    every round, not the number still owed; when a comment turns up among
    the lines it has just taken it overshoots and then never ends.  Here
    for the lines of "\time 3/4 c4 \time 4/4 d4 %% e4". *)
Lemma compensation_can_diverge : forall fuel,
  note_shards_loop fuel
    ["%%% \time 3/4 %%%"; "c'4"; "%%% \time 4/4 %%%"; "d'4"; "e'4"] [2; 1]
  = OutOfFuel.
Proof.
  intros fuel.
  assert (E : take_shard fuel
                ["%%% \time 3/4 %%%"; "c'4"; "%%% \time 4/4 %%%"; "d'4"; "e'4"] 2
              = OutOfFuel).
  { unfold take_shard. cbn [firstn skipn].
    destruct fuel as [|[|fuel]]; try reflexivity.
    rewrite !compensate_unfold.
    change (num_comments ["%%% \time 3/4 %%%"; "c'4"]) with 1.
    cbn [Nat.eqb firstn skipn app length Nat.add].
    change (num_comments ["%%% \time 3/4 %%%"; "c'4"; "%%% \time 4/4 %%%"]) with 2.
    cbn [Nat.eqb firstn skipn app length Nat.add].
    change 2 with (num_comments
      ["%%% \time 3/4 %%%"; "c'4"; "%%% \time 4/4 %%%"; "d'4"; "e'4"]) at 1.
    now rewrite compensate_stuck. }
  unfold note_shards_loop. cbn [for_each note_shards_step]. now rewrite E.
Qed.

(** C4 (amended).  The shard loop checks nothing about the lengths and
    never raises.  When the normalized lines hold no comment it returns,
    for every list of lengths, the consecutive blocks of those lengths:
    if the lengths add up to less than the number of lines, the lines
    beyond the sum are left out of every shard and dropped; if they add
    up to more, the shards hold fewer lines than the lengths ask for.  An
    exception of [create_normal_note_shards] is the parser's or the
    ValueError of an empty split symbol. *)
Theorem shard_lengths_not_checked :
  (forall fuel normalized_notes shard_lengths e,
      note_shards_loop fuel normalized_notes shard_lengths <> Raise e)
  /\ (forall fuel normalized_notes shard_lengths,
         num_comments normalized_notes = 0 ->
         note_shards_loop fuel normalized_notes shard_lengths
         = Return (map (Py.join " ") (chunks shard_lengths normalized_notes),
                   skipn (list_sum shard_lengths) normalized_notes)
         /\ (list_sum shard_lengths < length normalized_notes ->
             skipn (list_sum shard_lengths) normalized_notes <> [])
         /\ (length normalized_notes < list_sum shard_lengths ->
             length (concat (chunks shard_lengths normalized_notes))
             < list_sum shard_lengths))
  /\ (forall (Container : Type) (parser : string -> outcome Container)
             (format_lilypond_value : Container -> string) (len : Container -> nat)
             fuel lilypond_notes relative split_symbol e,
         create_normal_note_shards parser format_lilypond_value len
           fuel lilypond_notes relative split_symbol = Raise e ->
         parser (relative_block relative lilypond_notes) = Raise e
         \/ (split_symbol = "" /\ e = ValueError)
         \/ exists segments n,
              Py.split_sep lilypond_notes split_symbol = Return segments
              /\ In n segments
              /\ parser (relative_block relative n) = Raise e).
Proof.
  split; [|split].
  - intros fuel normalized lengths e. apply note_shards_no_raise.
  - intros fuel normalized lengths H0. repeat split.
    + rewrite note_shards_loop_lines. unfold shard_lines_loop.
      now rewrite (shard_lines_plain fuel lengths [] normalized H0).
    + intros Hlt Hnil. apply skipn_all_iff in Hnil. lia.
    + intros Hlt. rewrite chunks_concat, length_firstn. lia.
  - intros Container parser fmt len. apply create_normal_note_shards_raises.
Qed.

Lemma shard_lengths_not_checked_witness :
  note_shards_loop 0 ["c'4"; "d'4"; "e'4"] [1; 1]
  = Return (["c'4"; "d'4"], ["e'4"])
  /\ skipn (list_sum [1; 1]) ["c'4"; "d'4"; "e'4"] <> [].
Proof.
  destruct (proj1 (proj2 shard_lengths_not_checked) 0
              ["c'4"; "d'4"; "e'4"] [1; 1] eq_refl) as (Hl & Hdrop & _).
  split; [exact Hl|]. apply Hdrop. simpl. lia.
Defined.

(** C4, as stated, fails: lengths that add up to less than the number of
    lines, or to more, make the loop return shards and raise nothing. *)
Lemma mismatch_raises_nothing :
  note_shards_loop 0 ["c'4"; "d'4"; "e'4"] [1; 1]
  = Return (["c'4"; "d'4"], ["e'4"])
  /\ note_shards_loop 0 ["c'4"] [1; 1] = Return (["c'4"; ""], [])
  /\ ~ raises (note_shards_loop 0 ["c'4"; "d'4"; "e'4"] [1; 1])
  /\ ~ raises (note_shards_loop 0 ["c'4"] [1; 1]).
Proof.
  repeat split; intros [e H]; discriminate H.
Qed.

Open Scope Z_scope.

(** * Further properties *)

(** ** Tokens *)

Lemma all_chars_snoc (p : ascii -> bool) (s : string) (c : ascii) :
  all_chars p (Py.snoc s c) = all_chars p s && p c.
Proof.
  unfold Py.snoc. induction s as [|x s IH]; simpl.
  - now rewrite andb_true_r.
  - now rewrite IH, andb_assoc.
Qed.

Lemma snoc_not_empty (s : string) (c : ascii) : (Py.snoc s c =? "")%string = false.
Proof. now destruct s. Qed.

Lemma snoc_append (cur : string) (c : ascii) (t : string) :
  (Py.snoc cur c ++ t)%string = (cur ++ String c t)%string.
Proof. unfold Py.snoc. now rewrite append_assoc. Qed.

(** Every token of [s.split()] is a word. *)
Lemma split_from_words (s : string) : forall cur,
  all_chars (fun c => negb (Py.isspace c)) cur = true ->
  Forall (fun t => is_word t = true) (Py.split_from cur s).
Proof.
  induction s as [|c s IH]; intros cur Hcur.
  - cbn [Py.split_from]. destruct (cur =? "")%string eqn:E; constructor; [|constructor].
    unfold is_word. now rewrite E, Hcur.
  - cbn [Py.split_from]. destruct (Py.isspace c) eqn:Hc.
    + destruct (cur =? "")%string eqn:E.
      * now apply IH.
      * constructor; [|now apply IH]. unfold is_word. now rewrite E, Hcur.
    + apply IH. now rewrite all_chars_snoc, Hcur, Hc.
Qed.

Lemma split_words (s : string) : Forall (fun t => is_word t = true) (Py.split s).
Proof. now apply split_from_words. Qed.

Lemma split_from_spaceless (t : string) : forall cur,
  all_chars (fun c => negb (Py.isspace c)) t = true ->
  Py.split_from cur t
  = if (cur ++ t =? "")%string then [] else [(cur ++ t)%string].
Proof.
  induction t as [|c t IH]; intros cur Ht.
  - cbn [Py.split_from]. now rewrite append_nil_r.
  - cbn [all_chars] in Ht. apply andb_true_iff in Ht as [Hc Ht].
    apply negb_true_iff in Hc. cbn [Py.split_from]. rewrite Hc.
    now rewrite (IH _ Ht), snoc_append.
Qed.

Lemma split_word (t : string) : is_word t = true -> Py.split t = [t].
Proof.
  unfold is_word. intros H. apply andb_true_iff in H as [Hne Hsp].
  apply negb_true_iff in Hne. unfold Py.split.
  rewrite (split_from_spaceless t "" Hsp). cbn [String.append]. now rewrite Hne.
Qed.

Lemma words_of_words (l : list string) :
  Forall (fun t => is_word t = true) l -> words_of l = l.
Proof.
  unfold words_of. induction 1 as [|t l Ht _ IH]; [reflexivity|].
  cbn [flat_map]. now rewrite (split_word t Ht), IH.
Qed.

Lemma split_join_words (l : list string) :
  Forall (fun t => is_word t = true) l -> Py.split (Py.join " " l) = l.
Proof. intros H. now rewrite split_join, words_of_words. Qed.

(** ** More on the lyric slicer *)

Lemma window_Forall (P : string -> Prop) (lo hi : Z) (tokens : list string) :
  forall pos, Forall P tokens -> Forall P (window lo hi pos tokens).
Proof.
  induction tokens as [|t ts IH]; intros pos H; [constructor|].
  inversion H as [|? ? Ht Hts]; subst. cbn [window].
  destruct ((lo <=? pos) && (pos <? hi)); [constructor; [exact Ht|]|]; now apply IH.
Qed.

(** Once the counter has reached the end of the window nothing more is
    taken. *)
Lemma window_past (lo hi : Z) (tokens : list string) : forall pos,
  hi <= pos -> window lo hi pos tokens = [].
Proof.
  induction tokens as [|t ts IH]; intros pos H; [reflexivity|].
  cbn [window]. replace (pos <? hi) with false by (symmetry; apply Z.ltb_ge; lia).
  rewrite andb_false_r. apply IH. destruct (negb (t =? "--")%string); lia.
Qed.

Lemma window_empty (lo hi : Z) (tokens : list string) : forall pos,
  hi <= lo -> window lo hi pos tokens = [].
Proof.
  induction tokens as [|t ts IH]; intros pos H; [reflexivity|].
  cbn [window]. rewrite IH by exact H.
  destruct (Z.leb_spec lo pos), (Z.ltb_spec pos hi); try reflexivity; lia.
Qed.

(** Where the window starts does not matter once the counter is past
    it. *)
Lemma window_start_behind (lo lo' hi : Z) (tokens : list string) : forall pos,
  lo <= pos -> lo' <= pos ->
  window lo hi pos tokens = window lo' hi pos tokens.
Proof.
  induction tokens as [|t ts IH]; intros pos H H'; [reflexivity|].
  cbn [window]. rewrite (IH _) by (destruct (negb (t =? "--")%string); lia).
  replace (lo <=? pos) with true by (symmetry; now apply Z.leb_le).
  replace (lo' <=? pos) with true by (symmetry; now apply Z.leb_le).
  reflexivity.
Qed.

Lemma window_prefix (lo hi : Z) (tokens : list string) : forall pos,
  lo <= pos -> exists after, tokens = window lo hi pos tokens ++ after.
Proof.
  induction tokens as [|t ts IH]; intros pos H; [now exists []|].
  cbn [window]. replace (lo <=? pos) with true by (symmetry; now apply Z.leb_le).
  cbn [andb]. destruct (Z.ltb_spec pos hi) as [Hlt | Hge].
  - destruct (IH (if negb (t =? "--")%string then pos + 1 else pos)) as [after Ha];
      [destruct (negb (t =? "--")%string); lia|].
    exists after. cbn [app]. now f_equal.
  - rewrite window_past by (destruct (negb (t =? "--")%string); lia).
    now exists (t :: ts).
Qed.

Lemma window_infix (lo hi : Z) (tokens : list string) : forall pos,
  exists before after, tokens = before ++ window lo hi pos tokens ++ after.
Proof.
  induction tokens as [|t ts IH]; intros pos; [now exists [], []|].
  destruct (Z.leb_spec lo pos) as [Hle | Hgt].
  - destruct (window_prefix lo hi (t :: ts) pos Hle) as [after Ha].
    now exists [], after.
  - cbn [window]. replace (lo <=? pos) with false by (symmetry; apply Z.leb_gt; lia).
    cbn [andb].
    destruct (IH (if negb (t =? "--")%string then pos + 1 else pos))
      as (before & after & Hb).
    exists (t :: before), after. cbn [app]. now f_equal.
Qed.

Lemma window_glue (lo mid hi : Z) (tokens : list string) : forall pos,
  lo <= mid <= hi ->
  window lo mid pos tokens ++ window mid hi pos tokens = window lo hi pos tokens.
Proof.
  induction tokens as [|t ts IH]; intros pos H; [reflexivity|].
  cbn [window].
  set (pos' := if negb (t =? "--")%string then pos + 1 else pos).
  assert (Hp : pos <= pos') by (unfold pos'; destruct (negb (t =? "--")%string); lia).
  destruct (Z.leb_spec lo pos) as [H1 | H1], (Z.ltb_spec pos mid) as [H2 | H2],
    (Z.leb_spec mid pos) as [H3 | H3], (Z.ltb_spec pos hi) as [H4 | H4];
    cbn [andb app]; try lia; try (rewrite <- (IH pos' H); reflexivity).
  rewrite <- (IH pos' H), (window_past lo mid ts pos') by lia. reflexivity.
Qed.

(** X1.  An interval that is empty or reversed ([slice_end <=
    slice_start]) gives the empty string, whatever the line; a start at
    or below 0 is the same as a start at 0. *)
Theorem create_lyric_slice_degenerate
  (lilypond_lyrics : string) (slice_start slice_end : Z) :
  (slice_end <= slice_start ->
   create_lyric_slice lilypond_lyrics slice_start slice_end = "")
  /\ (slice_start <= 0 ->
      create_lyric_slice lilypond_lyrics slice_start slice_end
      = create_lyric_slice lilypond_lyrics 0 slice_end).
Proof.
  unfold create_lyric_slice. rewrite !lyric_slice_tokens_window. split; intros H.
  - now rewrite window_empty.
  - now rewrite (window_start_behind slice_start 0) by lia.
Qed.

Lemma create_lyric_slice_degenerate_witness :
  create_lyric_slice "one two three" 2 1 = ""
  /\ create_lyric_slice "one two three" (-4) 2 = create_lyric_slice "one two three" 0 2.
Proof.
  destruct (create_lyric_slice_degenerate "one two three" 2 1) as [H1 _].
  destruct (create_lyric_slice_degenerate "one two three" (-4) 2) as [_ H2].
  split; [apply H1 | apply H2]; lia.
Defined.

(** X2.  Slices of adjacent intervals fit together: for
    [slice_start <= middle <= slice_end] the tokens of the slice up to
    [middle] followed by those of the slice from [middle] are the tokens
    of the whole slice. *)
Theorem lyric_slices_compose (tokens : list string) (slice_start middle slice_end : Z) :
  slice_start <= middle <= slice_end ->
  lyric_slice_tokens tokens slice_start middle
  ++ lyric_slice_tokens tokens middle slice_end
  = lyric_slice_tokens tokens slice_start slice_end.
Proof.
  intros H. rewrite !lyric_slice_tokens_window. now apply window_glue.
Qed.

Lemma lyric_slices_compose_witness :
  lyric_slice_tokens ["Ma"; "--"; "ry"; "had"; "a"] 0 2
  ++ lyric_slice_tokens ["Ma"; "--"; "ry"; "had"; "a"] 2 3
  = lyric_slice_tokens ["Ma"; "--"; "ry"; "had"; "a"] 0 3.
Proof.
  apply (lyric_slices_compose ["Ma"; "--"; "ry"; "had"; "a"] 0 2 3). lia.
Defined.

(** X3.  A slice is a run of consecutive tokens of the line, in their
    order: the line is some tokens, then the slice, then the rest. *)
Theorem lyric_slice_contiguous (tokens : list string) (slice_start slice_end : Z) :
  exists before after,
    tokens = before ++ lyric_slice_tokens tokens slice_start slice_end ++ after.
Proof.
  rewrite lyric_slice_tokens_window. apply window_infix.
Qed.

Lemma slice_resplit (lilypond_lyrics : string) (slice_start slice_end : Z) :
  Py.split (create_lyric_slice lilypond_lyrics slice_start slice_end)
  = window slice_start slice_end 0 (Py.split lilypond_lyrics).
Proof.
  unfold create_lyric_slice. rewrite lyric_slice_tokens_window.
  apply split_join_words, window_Forall, split_words.
Qed.

(** X4.  Splitting the string [create_lyric_slice] returns gives back
    exactly the tokens it selected, markers included: nothing is merged
    or lost by joining with spaces, so the slice can be fed to
    [create_normal_lyrics] or sliced again. *)
Theorem create_lyric_slice_resplit
  (lilypond_lyrics : string) (slice_start slice_end : Z) :
  Py.split (create_lyric_slice lilypond_lyrics slice_start slice_end)
  = lyric_slice_tokens (Py.split lilypond_lyrics) slice_start slice_end.
Proof.
  now rewrite slice_resplit, lyric_slice_tokens_window.
Qed.

Lemma window_skip_prefix (lo hi : Z) (pre rest : list string) : forall pos,
  forallb (fun t => negb (t =? "--")%string) pre = true ->
  pos + syllables pre <= lo ->
  window lo hi pos (pre ++ rest) = window lo hi (pos + syllables pre) rest.
Proof.
  induction pre as [|t pre IH]; intros pos Hj Hlo.
  - cbn [app]. unfold syllables. cbn. now rewrite Z.add_0_r.
  - cbn [forallb] in Hj. apply andb_true_iff in Hj as [Ht Hpre].
    rewrite syllables_cons, Ht in Hlo |- *. pose proof (syllables_nonneg pre).
    cbn [app window]. rewrite Ht.
    replace (lo <=? pos) with false by (symmetry; apply Z.leb_gt; lia).
    cbn [andb]. rewrite IH by (assumption || lia). f_equal. lia.
Qed.

Lemma window_at_join (pre : list string) (t : string) (post : list string)
  (slice_end : Z) :
  forallb (fun t => negb (t =? "--")%string) pre = true ->
  ordinary t = true ->
  syllables pre < slice_end ->
  join_before_word
    (window (syllables pre) slice_end 0 (pre ++ "--" :: t :: post)) = true.
Proof.
  intros Hpre Ht He.
  rewrite window_skip_prefix by (assumption || lia).
  rewrite Z.add_0_l.
  set (s := syllables pre) in *.
  assert (W : window s slice_end s ("--" :: t :: post)
              = "--" :: t :: window s slice_end
                               (if negb (t =? "--")%string then s + 1 else s) post).
  { cbn [window]. change (negb ("--" =? "--")%string) with false. cbv iota.
    replace (s <=? s) with true by (symmetry; apply Z.leb_le; lia).
    replace (s <? slice_end) with true by (symmetry; now apply Z.ltb_lt).
    reflexivity. }
  rewrite W.
  change (join_before_word ("--" :: t :: ?w)) with (existsb ordinary (t :: w)).
  cbn [existsb]. now rewrite Ht.
Qed.

(** X5.  A slice that starts at the second syllable of a hyphenated word
    cannot be normalized: when the tokens before a join marker hold no
    join marker themselves, the slice starting at their number begins
    with that join marker, and [create_normal_lyrics] raises IndexError
    on it. *)
Theorem slice_inside_joined_word
  (lilypond_lyrics : string) (pre : list string) (t : string) (post : list string)
  (slice_end : Z) :
  Py.split lilypond_lyrics = pre ++ "--" :: t :: post ->
  forallb (fun t => negb (t =? "--")%string) pre = true ->
  ordinary t = true ->
  syllables pre < slice_end ->
  create_normal_lyrics
    (create_lyric_slice lilypond_lyrics (syllables pre) slice_end)
  = Raise IndexError.
Proof.
  intros Hs Hpre Ht He.
  pose proof (create_normal_lyrics_outcome
                (create_lyric_slice lilypond_lyrics (syllables pre) slice_end)) as Ho.
  rewrite slice_resplit, Hs in Ho.
  now rewrite (window_at_join pre t post slice_end Hpre Ht He) in Ho.
Qed.

Lemma slice_inside_joined_word_witness :
  create_normal_lyrics (create_lyric_slice "Ma -- ry had a" 1 3) = Raise IndexError.
Proof.
  exact (slice_inside_joined_word "Ma -- ry had a" ["Ma"] "ry" ["had"; "a"] 3
           eq_refl eq_refl eq_refl eq_refl).
Defined.

(** ** More on the lyric normalizer *)

Lemma normal_words_plain (tokens : list string) : forall words,
  forallb ordinary tokens = true ->
  for_each normal_lyrics_step tokens (words, false)
  = Return (words ++ tokens, false).
Proof.
  induction tokens as [|t ts IH]; intros words H.
  - cbn. now rewrite app_nil_r.
  - cbn [forallb] in H. apply andb_true_iff in H as [Ht Hts].
    cbn [for_each]. rewrite (step_new_word words t Ht). cbn [bind].
    rewrite (IH _ Hts), <- app_assoc. reflexivity.
Qed.

Lemma split_ordinary_again (lyrics : string) :
  Py.split (Py.join " " (Py.split lyrics)) = Py.split lyrics.
Proof. apply split_join_words, split_words. Qed.

(** X6.  On a line without markers [create_normal_lyrics] returns the
    tokens joined by single spaces, and normalizing that result again
    returns it unchanged. *)
Theorem create_normal_lyrics_marker_free (lilypond_lyrics : string) :
  forallb ordinary (Py.split lilypond_lyrics) = true ->
  create_normal_lyrics lilypond_lyrics
  = Return (Py.join " " (Py.split lilypond_lyrics))
  /\ create_normal_lyrics (Py.join " " (Py.split lilypond_lyrics))
     = Return (Py.join " " (Py.split lilypond_lyrics)).
Proof.
  intros H.
  assert (E : forall s, Py.split s = Py.split lilypond_lyrics ->
                        create_normal_lyrics s
                        = Return (Py.join " " (Py.split lilypond_lyrics))).
  { intros s Hs. unfold create_normal_lyrics, normal_words.
    rewrite Hs, (normal_words_plain _ [] H). reflexivity. }
  split; apply E; [reflexivity | apply split_ordinary_again].
Qed.

Lemma create_normal_lyrics_marker_free_witness :
  create_normal_lyrics "  Mary   had a  lamb " = Return "Mary had a lamb"
  /\ create_normal_lyrics "Mary had a lamb" = Return "Mary had a lamb".
Proof.
  exact (create_normal_lyrics_marker_free "  Mary   had a  lamb " eq_refl).
Defined.

(** ** More on the singable-note counter *)

Lemma count_step_bounds (n d : Z) (tie : bool) (t : string) :
  n <= fst (fst (count_step (n, d, tie) t))
  <= n + Z.b2z (Py.endswith t ")") + Z.b2z (Py.match_a_to_g t).
Proof.
  unfold count_step.
  destruct (Py.endswith t ")"), tie, (Py.match_a_to_g t);
    cbn [andb fst Z.b2z];
    repeat match goal with |- context [?x =? 0] => destruct (x =? 0) end;
    cbn [andb fst]; lia.
Qed.

Lemma count_fold_bounds (tokens : list string) : forall n d tie,
  n <= fst (fst (fold_left count_step tokens (n, d, tie)))
  <= n + Z.of_nat (length (filter (fun t => Py.endswith t ")") tokens))
       + Z.of_nat (length (filter Py.match_a_to_g tokens)).
Proof.
  induction tokens as [|t ts IH]; intros n d tie.
  - cbn. lia.
  - cbn [fold_left filter].
    pose proof (count_step_bounds n d tie t) as Hs.
    destruct (count_step (n, d, tie) t) as [[n' d'] tie'].
    cbn [fst] in Hs. specialize (IH n' d' tie').
    destruct (Py.endswith t ")"), (Py.match_a_to_g t);
      cbn [Z.b2z length] in Hs |- *; lia.
Qed.

(** X7.  The count is never negative, whatever the initial depth, and
    only tokens that start with a pitch letter or end in ")" are counted:
    the result is at most the number of the former plus the number of
    the latter. *)
Theorem count_singable_notes_bounds (lilypond_notes : string) (open_parantheses : Z) :
  0 <= count_singable_notes lilypond_notes open_parantheses
  <= Z.of_nat (length (filter Py.match_a_to_g (Py.split lilypond_notes)))
     + Z.of_nat (length (filter (fun t => Py.endswith t ")") (Py.split lilypond_notes))).
Proof.
  unfold count_singable_notes, count_loop.
  pose proof (count_fold_bounds (Py.split lilypond_notes) 0 open_parantheses false).
  lia.
Qed.

Lemma count_step_shift (n k d : Z) (tie : bool) (t : string) :
  count_step (n + k, d, tie) t
  = (fst (fst (count_step (n, d, tie) t)) + k,
     snd (fst (count_step (n, d, tie) t)),
     snd (count_step (n, d, tie) t)).
Proof.
  unfold count_step.
  destruct (Py.endswith t ")"), tie, (Py.match_a_to_g t), (Py.endswith t "(");
    cbn [andb fst snd];
    repeat match goal with |- context [?x =? 0] => destruct (x =? 0) end;
    cbn [andb fst snd];
    repeat match goal with |- (_, _) = (_, _) => apply f_equal2 end;
    try reflexivity; lia.
Qed.

Lemma count_fold_shift (tokens : list string) : forall n k d tie,
  fold_left count_step tokens (n + k, d, tie)
  = (fst (fst (fold_left count_step tokens (n, d, tie))) + k,
     snd (fst (fold_left count_step tokens (n, d, tie))),
     snd (fold_left count_step tokens (n, d, tie))).
Proof.
  induction tokens as [|t ts IH]; intros n k d tie; [reflexivity|].
  cbn [fold_left]. rewrite count_step_shift.
  destruct (count_step (n, d, tie) t) as [[n' d'] tie']. cbn [fst snd].
  apply IH.
Qed.

Lemma split_space_append (a b : string) :
  Py.split (a ++ " " ++ b) = Py.split a ++ Py.split b.
Proof. apply split_from_space. Qed.

(** X8.  Counting shard by shard agrees with counting the whole: when
    the tokens of [a] leave the loop with no portamento open and no tie
    pending, the count of [a] followed by [b] is the count of [a] plus
    the count of [b] taken from depth 0, as [main] adds them up. *)
Theorem count_singable_notes_concat (a b : string) (open_parantheses n : Z) :
  count_loop (Py.split a) open_parantheses = (n, 0, false) ->
  count_singable_notes (a ++ " " ++ b) open_parantheses
  = count_singable_notes a open_parantheses + count_singable_notes b 0.
Proof.
  intros Ha. unfold count_singable_notes, count_loop in *.
  rewrite split_space_append, fold_left_app, Ha. cbn [fst].
  rewrite <- (Z.add_0_l n) at 1. rewrite count_fold_shift. cbn [fst]. lia.
Qed.

Lemma count_singable_notes_concat_witness :
  count_singable_notes ("c'4 ( d'8 ) e'4~ e'8" ++ " " ++ "f'4 r4 g'2") 0
  = count_singable_notes "c'4 ( d'8 ) e'4~ e'8" 0 + count_singable_notes "f'4 r4 g'2" 0.
Proof.
  exact (count_singable_notes_concat "c'4 ( d'8 ) e'4~ e'8" "f'4 r4 g'2" 0 3 eq_refl).
Defined.

(** X9.  Called with a depth other than 0 on tokens that close nothing
    (and carry no tie or opening suffix), the counter counts nothing:
    every token is taken to lie inside a portamento. *)
Theorem count_singable_notes_inside (lilypond_notes : string) (open_parantheses : Z) :
  forallb plain_token (Py.split lilypond_notes) = true ->
  open_parantheses <> 0 ->
  count_singable_notes lilypond_notes open_parantheses = 0.
Proof.
  intros H Hd. unfold count_singable_notes, count_loop.
  now rewrite (count_fold_inner _ 0 open_parantheses H Hd).
Qed.

Lemma count_singable_notes_inside_witness :
  count_singable_notes "c'4 d'4 e'4" 1 = 0.
Proof.
  apply (count_singable_notes_inside "c'4 d'4 e'4" 1); [reflexivity | lia].
Defined.

(** ** More on the shard splitter *)

Close Scope Z_scope.

(** On leaving the compensation loop, the lines added to the shard are
    as many as the comments the shard holds. *)
Lemma compensate_owed (fuel : nat) : forall shard rest done shard' rest',
  compensate fuel shard rest (num_comments shard) done = Return (shard', rest') ->
  num_comments shard' + length shard = done + length shard'.
Proof.
  induction fuel as [|fuel IH]; intros shard rest done shard' rest'.
  - cbn. destruct (Nat.eqb_spec (num_comments shard) done); [|discriminate].
    intros [= <- <-]. lia.
  - rewrite compensate_unfold.
    destruct (Nat.eqb_spec (num_comments shard) done).
    + intros [= <- <-]. lia.
    + intros H. apply IH in H. rewrite length_app in H. lia.
Qed.

(** X10.  Comment lines do not count towards the length of a shard:
    whenever a shard of nominal length [l] is returned, it holds [l]
    lines that are not comments (all there are, if fewer than [l] lines
    were left), and it is an initial run of the lines at hand. *)
Theorem take_shard_length
  (fuel : nat) (normalized_notes : list string) (l : nat) (shard rest : list string) :
  take_shard fuel normalized_notes l = Return (shard, rest) ->
  length shard - num_comments shard = Nat.min l (length normalized_notes)
  /\ num_comments shard <= length shard
  /\ shard ++ rest = normalized_notes.
Proof.
  intros H. pose proof (take_shard_moves _ _ _ _ _ H) as Hm.
  unfold take_shard in H. apply compensate_owed in H.
  rewrite length_firstn in H. repeat split; [lia | lia | exact Hm].
Qed.

Lemma take_shard_length_witness :
  let shard := ["%%% \time 3/4 %%%"; "c'4"; "d'4"] in
  length shard - num_comments shard = Nat.min 2 4.
Proof.
  exact (proj1 (take_shard_length 1 ["%%% \time 3/4 %%%"; "c'4"; "d'4"; "e'4"] 2
                  ["%%% \time 3/4 %%%"; "c'4"; "d'4"] ["e'4"] eq_refl)).
Defined.

Lemma compensate_settled (fuel : nat) (shard rest : list string) (n : nat) :
  compensate fuel shard rest n n = Return (shard, rest).
Proof. destruct fuel; cbn [compensate]; now rewrite Nat.eqb_refl. Qed.

(** X11.  When the first [l] lines hold [c] comments and the next [c]
    lines exist and hold none, one round of compensation is enough: the
    shard is the first [l + c] lines. *)
Theorem take_shard_one_round (fuel : nat) (normalized_notes : list string) (l : nat) :
  let c := num_comments (firstn l normalized_notes) in
  l + c <= length normalized_notes ->
  num_comments (firstn c (skipn l normalized_notes)) = 0 ->
  take_shard (S fuel) normalized_notes l
  = Return (firstn (l + c) normalized_notes, skipn (l + c) normalized_notes).
Proof.
  intros c Hlen Hnone. unfold take_shard. fold c. rewrite compensate_unfold.
  destruct (Nat.eqb_spec c 0) as [E | _].
  - now rewrite E, Nat.add_0_r.
  - rewrite num_comments_app, Hnone, length_firstn, length_skipn. fold c.
    rewrite Nat.add_0_r, Nat.add_0_l, Nat.min_l by lia.
    rewrite compensate_settled, <- firstn_plus, skipn_skipn.
    now rewrite (Nat.add_comm c l).
Qed.

Lemma take_shard_one_round_witness :
  take_shard 1 ["%%% \time 3/4 %%%"; "c'4"; "d'4"; "e'4"] 2
  = Return (["%%% \time 3/4 %%%"; "c'4"; "d'4"], ["e'4"]).
Proof.
  apply (take_shard_one_round 0 ["%%% \time 3/4 %%%"; "c'4"; "d'4"; "e'4"] 2).
  - vm_compute. lia.
  - reflexivity.
Defined.

(** X12.  A shard whose nominal length reaches the end of the lines
    while it holds a comment is never finished: nothing is left to
    compensate with, the loop condition stays true, and neither the
    shard loop nor any later shard returns. *)
Theorem take_shard_starved
  (normalized_notes : list string) (l : nat) (shard_lengths : list nat) :
  length normalized_notes <= l ->
  num_comments normalized_notes <> 0 ->
  forall fuel,
    take_shard fuel normalized_notes l = OutOfFuel
    /\ note_shards_loop fuel normalized_notes (l :: shard_lengths) = OutOfFuel.
Proof.
  intros Hlen Hc fuel.
  assert (E : take_shard fuel normalized_notes l = OutOfFuel).
  { unfold take_shard. rewrite skipn_all2, firstn_all2 by exact Hlen.
    now apply compensate_stuck. }
  split; [exact E|].
  unfold note_shards_loop. cbn [for_each note_shards_step]. now rewrite E.
Qed.

Lemma take_shard_starved_witness :
  note_shards_loop 1000 ["c'4"; "%%% \time 3/4 %%%"; "d'4"] [3] = OutOfFuel.
Proof.
  apply (take_shard_starved ["c'4"; "%%% \time 3/4 %%%"; "d'4"] 3 []).
  - simpl. lia.
  - discriminate.
Defined.

(** *** Cutting at the split symbol and at the line ends *)

Lemma split_sep_from_skip (sep : string) (s : string) : forall k cur,
  Py.split_sep_from sep k cur s = Py.split_sep_from sep 0 cur (drop k s).
Proof.
  induction s as [|c s IH]; intros k cur.
  - now destruct k.
  - destruct k as [|k]; [reflexivity|]. cbn [Py.split_sep_from drop]. apply IH.
Qed.

Lemma split_sep_from_not_nil (sep : string) (s : string) : forall k cur,
  Py.split_sep_from sep k cur s <> [].
Proof.
  induction s as [|c s IH]; intros k cur; [discriminate|].
  cbn [Py.split_sep_from]. destruct k as [|k]; [|apply IH].
  destruct (Py.startswith (String c s) sep); [discriminate | apply IH].
Qed.

Lemma startswith_drop (sep : string) : forall s,
  Py.startswith s sep = true -> s = (sep ++ drop (String.length sep) s)%string.
Proof.
  induction sep as [|a sep IH]; intros s H; [reflexivity|].
  destruct s as [|b s]; [discriminate|].
  cbn [Py.startswith] in H. apply andb_true_iff in H as [Hab Hs].
  apply Ascii.eqb_eq in Hab. subst b.
  cbn [String.length drop String.append]. f_equal. now apply IH.
Qed.

Lemma drop_length (k : nat) : forall s, String.length (drop k s) <= String.length s.
Proof.
  induction k as [|k IH]; intros s; [reflexivity|].
  destruct s as [|c s]; [reflexivity|]. cbn [drop String.length].
  specialize (IH s). lia.
Qed.

Lemma join_cons (sep x : string) (l : list string) :
  l <> [] -> Py.join sep (x :: l) = (x ++ sep ++ Py.join sep l)%string.
Proof. destruct l; [contradiction | reflexivity]. Qed.

Lemma split_sep_from_join (sep : string) (n : nat) : forall s cur,
  sep <> "" ->
  String.length s <= n ->
  Py.join sep (Py.split_sep_from sep 0 cur s) = (cur ++ s)%string.
Proof.
  induction n as [|n IH]; intros s cur Hsep Hn.
  - destruct s; [|cbn in Hn; lia]. cbn. now rewrite append_nil_r.
  - destruct s as [|c s]; [cbn; now rewrite append_nil_r|].
    cbn [String.length] in Hn. cbn [Py.split_sep_from].
    destruct (Py.startswith (String c s) sep) eqn:Hp.
    + rewrite split_sep_from_skip, join_cons by apply split_sep_from_not_nil.
      destruct sep as [|a sep']; [contradiction|].
      cbn [String.length]. rewrite Nat.sub_succ, Nat.sub_0_r.
      rewrite IH; [| exact Hsep | pose proof (drop_length (String.length sep') s); lia].
      apply startswith_drop in Hp. cbn [String.length drop] in Hp.
      transitivity (cur ++ (String a sep' ++ drop (String.length sep') s))%string;
        [reflexivity | now rewrite <- Hp].
    + rewrite IH by (assumption || lia). apply snoc_append.
Qed.

Lemma split_sep_not_nil (s sep : string) (segments : list string) :
  Py.split_sep s sep = Return segments -> segments <> [].
Proof.
  unfold Py.split_sep. destruct (sep =? "")%string; [discriminate|].
  intros [= <-]. apply split_sep_from_not_nil.
Qed.

(** X13.  The segments [lilypond_notes.split(split_symbol)] cuts, joined
    again with the split symbol, are the notation: cutting at the markers
    loses and adds no character, and there is always at least one
    segment. *)
Theorem split_sep_join (s sep : string) (segments : list string) :
  Py.split_sep s sep = Return segments ->
  Py.join sep segments = s /\ segments <> [].
Proof.
  unfold Py.split_sep. destruct (String.eqb_spec sep "") as [-> | Hsep]; [discriminate|].
  intros [= <-]. split.
  - now rewrite (split_sep_from_join sep (String.length s)).
  - apply split_sep_from_not_nil.
Qed.

Lemma split_sep_join_witness :
  Py.join "%%" ["c4 d4 "; " e4 f4 "; " g2"] = "c4 d4 %% e4 f4 %% g2".
Proof.
  exact (proj1 (split_sep_join "c4 d4 %% e4 f4 %% g2" "%%"
                  ["c4 d4 "; " e4 f4 "; " g2"] eq_refl)).
Defined.

Lemma startswith_newline (c : ascii) (s : string) :
  Py.startswith (String c s) newline = Ascii.eqb (ascii_of_nat 10) c.
Proof. cbn. apply andb_true_r. Qed.

Lemma split_newline_line (a : string) : forall cur rest,
  newline_free a = true ->
  Py.split_sep_from newline 0 cur (a ++ newline ++ rest)
  = (cur ++ a)%string :: Py.split_sep_from newline 0 "" rest.
Proof.
  induction a as [|c a IH]; intros cur rest Ha.
  - change ("" ++ newline ++ rest)%string with (String (ascii_of_nat 10) rest).
    cbn [Py.split_sep_from]. rewrite startswith_newline, Ascii.eqb_refl.
    now rewrite append_nil_r.
  - unfold newline_free in Ha. cbn [all_chars] in Ha.
    apply andb_true_iff in Ha as [Hc Ha]. apply negb_true_iff in Hc.
    cbn [String.append Py.split_sep_from]. rewrite startswith_newline, Hc.
    now rewrite (IH _ _ Ha), snoc_append.
Qed.

Lemma split_newline_last (a : string) : forall cur,
  newline_free a = true ->
  Py.split_sep_from newline 0 cur a = [(cur ++ a)%string].
Proof.
  induction a as [|c a IH]; intros cur Ha.
  - cbn. now rewrite append_nil_r.
  - unfold newline_free in Ha. cbn [all_chars] in Ha.
    apply andb_true_iff in Ha as [Hc Ha]. apply negb_true_iff in Hc.
    cbn [Py.split_sep_from]. rewrite startswith_newline, Hc.
    now rewrite (IH _ Ha), snoc_append.
Qed.

Lemma split_newline_join (lines : list string) :
  Forall (fun x => newline_free x = true) lines ->
  lines <> [] ->
  Py.split_sep_from newline 0 "" (Py.join newline lines) = lines.
Proof.
  induction lines as [|x [|y l] IH]; intros H Hne.
  - contradiction.
  - cbn [Py.join]. inversion H; subst. now rewrite split_newline_last.
  - inversion H as [|? ? Hx Hl]; subst.
    change (Py.join newline (x :: y :: l))
      with (x ++ newline ++ Py.join newline (y :: l))%string.
    rewrite (split_newline_line x "" _ Hx), IH by (assumption || discriminate).
    reflexivity.
Qed.

(** X14.  From the formatted notation the function keeps the lines
    between the first and the last, each stripped of the whitespace
    around it: whatever the first and the last line are (the braces),
    they are thrown away, and indentation is removed. *)
Theorem normalized_lines_block (first : string) (body : list string) (last : string) :
  Forall (fun x => newline_free x = true) (first :: body ++ [last]) ->
  normalized_lines (Py.join newline (first :: body ++ [last]))
  = map Py.strip body.
Proof.
  intros H. unfold normalized_lines, Py.slice_1_m1.
  rewrite split_newline_join by (assumption || discriminate).
  cbn [map tl]. rewrite map_app. cbn [map]. apply removelast_last.
Qed.

Lemma normalized_lines_block_witness :
  normalized_lines (Py.join newline ("{" :: ["    c'4"; "    %%% \time 3/4 %%%"; "    d'4"] ++ ["}"]))
  = ["c'4"; "%%% \time 3/4 %%%"; "d'4"].
Proof.
  apply (normalized_lines_block "{" ["    c'4"; "    %%% \time 3/4 %%%"; "    d'4"] "}").
  repeat constructor.
Defined.

Section SplitterCount.

Context {Container : Type}.
Variable parser : string -> outcome Container.
Variable format_lilypond_value : Container -> string.
Variable len : Container -> nat.

Lemma comprehension_length {A B : Type} (f : A -> outcome B) (xs : list A) :
  forall ys, comprehension f xs = Return ys -> length ys = length xs.
Proof.
  induction xs as [|x xs IH]; intros ys H.
  - cbn in H. now injection H as <-.
  - cbn [comprehension] in H. destruct (f x) as [y | e |]; cbn [bind] in H;
      try discriminate.
    destruct (comprehension f xs) as [ys' | e |]; cbn [bind] in H;
      try discriminate.
    injection H as <-. cbn [length]. now rewrite (IH ys' eq_refl).
Qed.

(** X15.  When the splitter returns, it returns one shard for each
    segment the split symbol cuts the notation into, hence at least
    one; a shard may be the empty string but none is left out or
    added. *)
Theorem create_normal_note_shards_count
  (fuel : nat) (notes relative split_symbol : string) (note_shards : list string) :
  create_normal_note_shards parser format_lilypond_value len
    fuel notes relative split_symbol = Return note_shards ->
  exists segments,
    Py.split_sep notes split_symbol = Return segments
    /\ length note_shards = length segments
    /\ 1 <= length note_shards.
Proof.
  intros H.
  apply create_normal_note_shards_returns in H
    as (abjad & segments & lengths & rest & _ & Hs & Hc & Hl).
  exists segments. apply comprehension_length in Hc.
  rewrite note_shards_loop_lines in Hl. unfold shard_lines_loop in Hl.
  destruct (for_each (shard_lines_step fuel) lengths _)
    as [[shards rest'] | e |] eqn:Hf; cbn [bind] in Hl; try discriminate.
  injection Hl as <- <-. apply shard_lines_moves in Hf as [_ Hn].
  cbn [length Nat.add] in Hn. rewrite length_map, Hn, Hc.
  repeat split; [exact Hs|].
  pose proof (split_sep_not_nil _ _ _ Hs) as Hne.
  destruct segments; [contradiction | cbn; lia].
Qed.

End SplitterCount.

Lemma create_normal_note_shards_count_witness :
  exists segments,
    Py.split_sep "c4 d4 %% e4 f4 g4" "%%" = Return segments
    /\ length ["c4 d4"; "e4 f4 g4"] = length segments
    /\ 1 <= length ["c4 d4"; "e4 f4 g4"].
Proof.
  apply (create_normal_note_shards_count leaf_parser leaf_format (@length string)
           0 "c4 d4 %% e4 f4 g4" "c'" "%%").
  reflexivity.
Defined.

(** ** The lyric bookkeeping of main *)

Open Scope Z_scope.

Lemma create_normal_lyrics_cases (s : string) :
  create_normal_lyrics s = Raise IndexError
  \/ exists out, create_normal_lyrics s = Return out.
Proof.
  pose proof (create_normal_lyrics_outcome s) as H.
  destruct (join_before_word (Py.split s)); [now left | now right].
Qed.

Lemma join_before_word_no_join (tokens : list string) :
  forallb (fun t => negb (t =? "--")%string) tokens = true ->
  join_before_word tokens = false.
Proof.
  induction tokens as [|t ts IH]; [reflexivity|].
  cbn [forallb join_before_word]. intros H. apply andb_true_iff in H as [Ht Hts].
  apply negb_true_iff in Ht. rewrite Ht. destruct (t =? "__")%string; auto.
Qed.

(** A slice of a line without join markers can always be normalized. *)
Lemma slice_of_join_free (lyrics : string) (slice_start slice_end : Z) :
  forallb (fun t => negb (t =? "--")%string) (Py.split lyrics) = true ->
  exists out,
    create_normal_lyrics (create_lyric_slice lyrics slice_start slice_end)
    = Return out.
Proof.
  intros H.
  pose proof (create_normal_lyrics_outcome
                (create_lyric_slice lyrics slice_start slice_end)) as Ho.
  rewrite slice_resplit, join_before_word_no_join in Ho; [exact Ho|].
  apply forallb_forall. intros t Hin.
  assert (F : Forall (fun t => negb (t =? "--")%string = true)
                (window slice_start slice_end 0 (Py.split lyrics))).
  { apply window_Forall, Forall_forall. intros x Hx.
    exact (proj1 (forallb_forall _ _) H x Hx). }
  exact (proj1 (Forall_forall _ _) F t Hin).
Qed.

Lemma partials_lookup (k : nat) :
  (k < 30)%nat <-> exists p, nth_error partials k = Some p.
Proof.
  split.
  - intros H. destruct (nth_error partials k) as [p|] eqn:E; [now exists p|].
    apply nth_error_None in E. cbn in E. lia.
  - intros [p E]. change 30%nat with (length partials).
    apply nth_error_Some. now rewrite E.
Qed.

(** What one pass of the loop went through when it did not raise. *)
Lemma main_step_returns (lyrics : string) (cards : list (string * string))
  (qustn_lyrics : string) (seen : Z) (k : nat) (cur_notes : string)
  (st : list (string * string) * string * Z) :
  main_step lyrics (cards, qustn_lyrics, seen) (k, cur_notes) = Return st ->
  let answr_lyrics :=
    create_lyric_slice lyrics seen (seen + count_singable_notes cur_notes 0 + 1) in
  (k < 30)%nat
  /\ exists q a,
       create_normal_lyrics qustn_lyrics = Return q
       /\ create_normal_lyrics answr_lyrics = Return a
       /\ st = (cards ++ [(q, a)], answr_lyrics, seen + count_singable_notes cur_notes 0).
Proof.
  unfold main_step. destruct (nth_error partials k) as [p|] eqn:Ep; [|discriminate].
  destruct (create_normal_lyrics qustn_lyrics) as [q | e |]; cbn [bind];
    try discriminate.
  destruct (create_normal_lyrics (create_lyric_slice _ _ _)) as [a | e |];
    cbn [bind]; try discriminate.
  intros [= <-]. split; [apply partials_lookup; eauto|]. now exists q, a.
Qed.

Lemma main_step_outcome (lyrics : string) (st : list (string * string) * string * Z)
  (cur : nat * string) :
  main_step lyrics st cur = Raise IndexError
  \/ exists st', main_step lyrics st cur = Return st'.
Proof.
  destruct st as [[cards q] seen], cur as [k notes]. unfold main_step.
  destruct (nth_error partials k); [|now left].
  destruct (create_normal_lyrics_cases q) as [-> | [qn ->]]; cbn [bind]; [now left|].
  destruct (create_normal_lyrics_cases
              (create_lyric_slice lyrics seen (seen + count_singable_notes notes 0 + 1)))
    as [-> | [a ->]]; cbn [bind]; [now left | right; eauto].
Qed.

Lemma main_loop_overflow (lyrics : string) (shards : list string) : forall k st,
  shards <> [] ->
  (30 < k + length shards)%nat ->
  for_each (main_step lyrics) (combine (seq k (length shards)) shards) st
  = Raise IndexError.
Proof.
  induction shards as [|x l IH]; intros k st Hne Hlen; [contradiction|].
  cbn [length seq combine for_each].
  destruct (main_step_outcome lyrics st (k, x)) as [-> | [st' E]]; [reflexivity|].
  rewrite E. cbn [bind]. destruct st as [[cards q] seen].
  apply main_step_returns in E as [Hk _].
  destruct l as [|y l]; [cbn [length] in Hlen; lia|].
  apply IH; [discriminate | cbn [length] in *; lia].
Qed.

(** X16.  With more than 30 shards the loop of [main] cannot finish:
    [partials] has 30 entries and is indexed by the shard number, so the
    loop raises IndexError (at the latest at shard 30). *)
Theorem main_lyrics_too_many_shards (lyrics : string) (note_shards : list string) :
  (30 < length note_shards)%nat ->
  main_lyrics lyrics note_shards = Raise IndexError.
Proof.
  intros H. unfold main_lyrics.
  rewrite main_loop_overflow; [reflexivity | | exact H].
  destruct note_shards; [cbn in H; lia | discriminate].
Qed.

Lemma main_lyrics_too_many_shards_witness :
  main_lyrics "la" (repeat "c'4" 31) = Raise IndexError.
Proof.
  apply (main_lyrics_too_many_shards "la" (repeat "c'4" 31)).
  simpl. lia.
Defined.

Lemma main_loop_returns (lyrics : string) (shards : list string) :
  forallb (fun t => negb (t =? "--")%string) (Py.split lyrics) = true ->
  forall k cards qustn_lyrics seen,
    (k + length shards <= 30)%nat ->
    (exists q, create_normal_lyrics qustn_lyrics = Return q) ->
    exists cards' qustn_lyrics' seen',
      for_each (main_step lyrics) (combine (seq k (length shards)) shards)
        (cards, qustn_lyrics, seen)
      = Return (cards', qustn_lyrics', seen')
      /\ length cards' = (length cards + length shards)%nat.
Proof.
  intros Hfree. induction shards as [|x l IH]; intros k cards q seen Hk [qn Hq].
  - exists cards, q, seen. cbn. split; [reflexivity | lia].
  - cbn [length seq combine for_each]. cbn [length] in Hk.
    destruct (proj1 (partials_lookup k)) as [p Hp]; [lia|].
    destruct (slice_of_join_free lyrics seen
                (seen + count_singable_notes x 0 + 1) Hfree) as [a Ha].
    unfold main_step at 1. rewrite Hp, Hq. cbn [bind]. rewrite Ha. cbn [bind].
    destruct (IH (S k) (cards ++ [(qn, a)])
                (create_lyric_slice lyrics seen (seen + count_singable_notes x 0 + 1))
                (seen + count_singable_notes x 0)) as (c' & q' & s' & E & L);
      [lia | eauto |].
    exists c', q', s'. split; [exact E|].
    rewrite L, length_app. cbn [length]. lia.
Qed.

(** X17.  For a lyric line without join markers and at most 30 shards
    the bookkeeping of [main] runs through, whatever the notation of the
    shards, and yields one card per shard. *)
Theorem main_lyrics_returns (lyrics : string) (note_shards : list string) :
  forallb (fun t => negb (t =? "--")%string) (Py.split lyrics) = true ->
  (length note_shards <= 30)%nat ->
  exists cards,
    main_lyrics lyrics note_shards = Return cards
    /\ length cards = length note_shards.
Proof.
  intros Hfree Hlen. unfold main_lyrics.
  destruct (main_loop_returns lyrics note_shards Hfree 0 [] "" 0)
    as (cards & q & seen & E & L); [lia | now exists "" |].
  rewrite E. cbn [bind]. now exists cards.
Qed.

Lemma main_lyrics_returns_witness :
  exists cards,
    main_lyrics "one two three four" ["c'4 d'4"; "e'4 f'4"] = Return cards
    /\ length cards = 2%nat.
Proof.
  apply (main_lyrics_returns "one two three four" ["c'4 d'4"; "e'4 f'4"]).
  - reflexivity.
  - simpl. lia.
Defined.

Lemma main_loop_chain (lyrics : string) (shards : list string) :
  forall k cards qustn_lyrics seen cards' qustn_lyrics' seen',
    for_each (main_step lyrics) (combine (seq k (length shards)) shards)
      (cards, qustn_lyrics, seen)
    = Return (cards', qustn_lyrics', seen') ->
    (exists q, create_normal_lyrics qustn_lyrics = Return q
               /\ "" :: map snd cards = map fst cards ++ [q]) ->
    (exists q', create_normal_lyrics qustn_lyrics' = Return q'
                /\ "" :: map snd cards' = map fst cards' ++ [q'])
    /\ length cards' = (length cards + length shards)%nat.
Proof.
  induction shards as [|x l IH]; intros k cards q seen cards' q' seen' H Hinv.
  - cbn in H. injection H as <- <- <-. split; [exact Hinv | cbn; lia].
  - cbn [length seq combine for_each] in H.
    destruct (main_step lyrics (cards, q, seen) (k, x)) as [st | e |] eqn:E;
      cbn [bind] in H; try discriminate.
    apply main_step_returns in E as (_ & qn & a & Hq & Ha & ->).
    apply IH in H as [Hinv' L].
    + split; [exact Hinv'|]. rewrite L, length_app. cbn [length]. lia.
    + exists a. split; [exact Ha|].
      destruct Hinv as (q0 & Hq0 & Hc). rewrite Hq in Hq0. injection Hq0 as <-.
      rewrite !map_app. cbn [map fst snd].
      change ("" :: map snd cards ++ [a]) with (("" :: map snd cards) ++ [a]).
      now rewrite Hc.
Qed.

(** X18.  The cards are chained: the question lyrics of the first card
    are empty and the question lyrics of every later card are the answer
    lyrics of the card before it; there is one card per shard. *)
Theorem main_lyrics_chain (lyrics : string) (note_shards : list string)
  (cards : list (string * string)) :
  main_lyrics lyrics note_shards = Return cards ->
  map fst cards = removelast ("" :: map snd cards)
  /\ length cards = length note_shards.
Proof.
  unfold main_lyrics.
  destruct (for_each (main_step lyrics) _ ([], "", 0)) as [[[c q] seen] | e |] eqn:E;
    cbn [bind]; try discriminate.
  intros [= <-]. apply main_loop_chain in E as [(q' & _ & Hc) L].
  - split; [|exact L]. rewrite Hc. symmetry. apply removelast_last.
  - now exists "".
Qed.

Lemma main_lyrics_chain_witness :
  map fst [("", "one two three"); ("one two three", "three four")]
  = removelast ("" :: map snd [("", "one two three"); ("one two three", "three four")]).
Proof.
  exact (proj1 (main_lyrics_chain "one two three four" ["c'4 d'4"; "e'4 f'4"]
                  [("", "one two three"); ("one two three", "three four")] eq_refl)).
Defined.

(** X19.  When the notes counted in the first shard end inside a
    hyphenated word (its singable count is the number of tokens before a
    join marker, none of them a join marker) and a second shard follows,
    [main] fails with IndexError: the lyrics of the second shard start
    with the join marker. *)
Theorem main_lyrics_cut_word
  (lyrics first second : string) (others : list string)
  (pre : list string) (t : string) (post : list string) :
  Py.split lyrics = pre ++ "--" :: t :: post ->
  forallb (fun t => negb (t =? "--")%string) pre = true ->
  ordinary t = true ->
  count_singable_notes first 0 = syllables pre ->
  main_lyrics lyrics (first :: second :: others) = Raise IndexError.
Proof.
  intros Hs Hpre Ht Hcount. unfold main_lyrics.
  cbn [length seq combine for_each].
  destruct (main_step lyrics ([], "", 0) (0%nat, first)) as [st | e |] eqn:E0.
  - apply main_step_returns in E0 as (_ & q0 & a0 & _ & Ha0 & ->).
    cbn [bind]. unfold main_step at 1. cbn [nth_error partials].
    rewrite Ha0. cbn [bind]. rewrite Hcount, Z.add_0_l.
    pose proof (count_fold_bounds (Py.split second) 0 0 false) as Hb.
    fold (count_loop (Py.split second) 0) in Hb.
    fold (count_singable_notes second 0) in Hb.
    pose proof (create_normal_lyrics_outcome
                  (create_lyric_slice lyrics (syllables pre)
                     (syllables pre + count_singable_notes second 0 + 1))) as Ho.
    rewrite slice_resplit, Hs in Ho.
    rewrite (window_at_join pre t post _ Hpre Ht) in Ho by lia.
    now rewrite Ho.
  - destruct (main_step_outcome lyrics ([], "", 0) (0%nat, first)) as [E | [st E]];
      rewrite E in E0; [now injection E0 as <- | discriminate].
  - destruct (main_step_outcome lyrics ([], "", 0) (0%nat, first)) as [E | [st E]];
      rewrite E in E0; discriminate.
Qed.

Lemma main_lyrics_cut_word_witness :
  main_lyrics "Ma -- ry had a" ["c'4"; "d'4 e'4"] = Raise IndexError.
Proof.
  exact (main_lyrics_cut_word "Ma -- ry had a" "c'4" "d'4 e'4" []
           ["Ma"] "ry" ["had"; "a"] eq_refl eq_refl eq_refl eq_refl).
Defined.

(** ** The tags of main *)

Close Scope Z_scope.

Lemma tag_char_clean (c : ascii) :
  space_or_capital
    (if Ascii.eqb (PyStr.lower_char c) " " then "_"%char else PyStr.lower_char c)
  = false.
Proof.
  destruct c as [[] [] [] [] [] [] [] []]; reflexivity.
Qed.

Lemma map_chars_length (f : ascii -> ascii) (s : string) :
  String.length (PyStr.map_chars f s) = String.length s.
Proof. induction s as [|c s IH]; cbn; [reflexivity | now rewrite IH]. Qed.

Lemma tag_clean (x : string) :
  all_chars (fun c => negb (space_or_capital c))
    (PyStr.replace_char " " "_" (PyStr.lower x)) = true.
Proof.
  unfold PyStr.replace_char, PyStr.lower. induction x as [|c x IH]; [reflexivity|].
  cbn [PyStr.map_chars all_chars]. now rewrite tag_char_clean, IH.
Qed.

Lemma tag_char_again (c : ascii) :
  let f c := if Ascii.eqb (PyStr.lower_char c) " " then "_"%char
             else PyStr.lower_char c in
  f (f c) = f c.
Proof.
  destruct c as [[] [] [] [] [] [] [] []]; reflexivity.
Qed.

Lemma tag_again (x : string) :
  PyStr.replace_char " " "_"
    (PyStr.lower (PyStr.replace_char " " "_" (PyStr.lower x)))
  = PyStr.replace_char " " "_" (PyStr.lower x).
Proof.
  unfold PyStr.replace_char, PyStr.lower. induction x as [|c x IH]; [reflexivity|].
  cbn [PyStr.map_chars]. rewrite IH. f_equal. apply tag_char_again.
Qed.

(** X20.  [main] always builds three tags, from the song title, the
    voice and the constant "physikerchor"; each keeps the length of what
    it is made from, holds no space and no letter A-Z, and making tags
    out of the tags again changes nothing. *)
Theorem main_tags_clean (songtitle voice : string) :
  exists title_tag voice_tag,
    main_tags songtitle voice = [title_tag; voice_tag; "physikerchor"]
    /\ String.length title_tag = String.length songtitle
    /\ String.length voice_tag = String.length voice
    /\ Forall (fun tag => all_chars (fun c => negb (space_or_capital c)) tag = true)
         (main_tags songtitle voice)
    /\ main_tags title_tag voice_tag = main_tags songtitle voice.
Proof.
  exists (PyStr.replace_char " " "_" (PyStr.lower songtitle)),
         (PyStr.replace_char " " "_" (PyStr.lower voice)).
  split; [reflexivity|].
  split; [unfold PyStr.replace_char, PyStr.lower; now rewrite !map_chars_length|].
  split; [unfold PyStr.replace_char, PyStr.lower; now rewrite !map_chars_length|].
  split.
  - unfold main_tags. cbn [map]. repeat constructor; apply tag_clean.
  - unfold main_tags. cbn [map]. now rewrite !tag_again.
Qed.

(** ** Comment lines and indentation *)

Lemma startswith_rstrip (p : string) : forall u,
  all_chars (fun c => negb (Py.isspace c)) p = true ->
  Py.startswith (Py.rstrip u) p = Py.startswith u p.
Proof.
  induction p as [|a p IH]; intros u Hp; [reflexivity|].
  cbn [all_chars] in Hp. apply andb_true_iff in Hp as [Ha Hp].
  apply negb_true_iff in Ha.
  destruct u as [|c s]; [reflexivity|].
  cbn [Py.rstrip].
  destruct (Py.isspace c && (Py.rstrip s =? "")%string) eqn:E.
  - apply andb_true_iff in E as [Hc _]. cbn [Py.startswith].
    destruct (Ascii.eqb_spec a c) as [-> | _]; [congruence | reflexivity].
  - cbn [Py.startswith]. now rewrite IH.
Qed.

(** X21.  Whether a line of the formatted notation counts as a comment
    depends only on what follows its indentation: the stripped line
    starts with "%%%" exactly when the line does so after its leading
    whitespace, whatever whitespace trails it. *)
Theorem comment_detection_ignores_whitespace (lines : list string) :
  num_comments (map Py.strip lines)
  = length (filter (fun x => Py.startswith (Py.lstrip x) "%%%") lines).
Proof.
  unfold num_comments. induction lines as [|x l IH]; [reflexivity|].
  cbn [map filter list_sum fold_right]. unfold Py.strip at 1.
  rewrite (startswith_rstrip "%%%" (Py.lstrip x) eq_refl).
  change (list_sum (map (fun x0 => Nat.b2n (Py.startswith x0 "%%%")) (map Py.strip l)))
    with (fold_right Nat.add 0
            (map (fun x0 => Nat.b2n (Py.startswith x0 "%%%")) (map Py.strip l))) in IH.
  rewrite IH. now destruct (Py.startswith (Py.lstrip x) "%%%").
Qed.

(** ** A stray closing parenthesis *)

Open Scope Z_scope.

(** X22.  A closing parenthesis with no portamento open takes the depth
    to -1, and from there no token without a suffix is counted: one
    stray ")" at the start silences the count of the rest of the
    segment. *)
Theorem stray_close_silences (t : string) (rest : list string) :
  Py.endswith t ")" = true ->
  forallb plain_token rest = true ->
  count_loop (t :: rest) 0 = (0, -1, false).
Proof.
  intros Hc Hrest. unfold count_loop. cbn [fold_left].
  assert (E : count_step (0, 0, false) t = (0, -1, false)).
  { unfold count_step.
    rewrite Hc, (close_not_tilde t Hc), (close_not_open t Hc). reflexivity. }
  rewrite E. apply count_fold_inner; [exact Hrest | discriminate].
Qed.

Lemma stray_close_silences_witness :
  count_loop (Py.split "c'4) d'4 e'4 f'4") 0 = (0, -1, false).
Proof.
  exact (stray_close_silences "c'4)" ["d'4"; "e'4"; "f'4"] eq_refl eq_refl).
Defined.

(** * The shards as a partition of the lines *)

Close Scope Z_scope.








(** * Notation the parser rejects *)






